(** * Sidekick: the Codex app-server protocol bridge

    A shallow embedding of [CodexAppServerTransport]
    (packages/transport-codex-appserver) and the properties its
    specification states about it.

    Conventions of the embedding.
    - A JavaScript string is the list of its UTF-16 code units ([list N]);
      [js "..."] turns an ASCII literal into such a list.
    - A parsed JSON line is a [value]; JSON numbers are restricted to the
      integers (request ids, exit codes), fractional numbers are not modelled.
    - A field the source casts to [string | undefined] is read as a string
      only when it is one: peer messages are taken to respect the declared
      field types.  Where the source converts with [String(...)] or tests
      [typeof], so does the embedding.
    - The object's fields are a record [state]; every method is a function
      threading that record.  What the transport writes to the peer's stdin
      is appended to [outbox], what it hands to its listeners to [emitted]
      (the listener set itself, [onEvent], is left out).
    - Promises are defunctionalised: a pending RPC holds the continuation
      ([cont]) of the async method awaiting it, settling a promise queues a
      [job], and a later reaction runs it, as the JavaScript job queue does.
      The promise a public method returns to its caller is named by a label
      the caller picks ([call]); its outcome is logged in [settled].
    - The platform's clock is an input of each reaction ([clock]).
    - The diagnostic log file and [shutdown] are left out: they feed nothing
      back into the fields modelled here. *)

From Stdlib Require Import ZArith NArith List Ascii String Lia Bool.
From stdpp Require Import gmap strings list fin_maps pretty.

Open Scope N_scope.

Set Warnings "-register-all".

(** ** JavaScript strings and values *)

Abbreviation jsstring := (list N).

Definition js (s : string) : jsstring :=
  (fun a => N_of_ascii a) <$> list_ascii_of_string s.

Inductive value : Type :=
| VUndef
| VNull
| VBool (b : bool)
| VNum (n : Z)
| VStr (s : jsstring)
| VArr (xs : list value)
| VObj (fields : list (jsstring * value)).

(** Truthiness, as [if (v)], [!v], [a || b] and [c ? a : b] test it. *)
Definition truthy (v : value) : bool :=
  match v with
  | VUndef | VNull => false
  | VBool b => b
  | VNum n => negb (n =? 0)%Z
  | VStr s => negb (bool_decide (s = []))
  | VArr _ | VObj _ => true
  end.

Definition nullish (v : value) : bool :=
  match v with VUndef | VNull => true | _ => false end.

(** [a || b] and [a ?? b]. *)
Definition js_or (a b : value) : value := if truthy a then a else b.
Definition js_coalesce (a b : value) : value := if nullish a then b else a.

Declare Scope js_scope.
Delimit Scope js_scope with js.
Infix "|||" := js_or (at level 50, left associativity) : js_scope.
Infix "??" := js_coalesce (at level 51, left associativity) : js_scope.

Fixpoint assoc (k : jsstring) (fields : list (jsstring * value)) : value :=
  match fields with
  | [] => VUndef
  | (k', v) :: rest => if bool_decide (k = k') then v else assoc k rest
  end.

(** Property read [v?.k]; on a value that is neither null nor undefined it
    is also [v.k].  None of the keys the transport reads is a property of
    the String or Array prototypes, so only objects answer. *)
Definition get (v : value) (k : string) : value :=
  match v with
  | VObj fields => assoc (js k) fields
  | _ => VUndef
  end.

Infix "?>" := get (at level 40, left associativity) : js_scope.

Fixpoint join (sep : jsstring) (parts : list jsstring) : jsstring :=
  match parts with
  | [] => []
  | [p] => p
  | p :: rest => p ++ sep ++ join sep rest
  end.

(** [String(v)]. *)
Fixpoint toString (v : value) : jsstring :=
  match v with
  | VUndef => js "undefined"
  | VNull => js "null"
  | VBool true => js "true"
  | VBool false => js "false"
  | VNum n => js (pretty n)
  | VStr s => s
  | VArr xs =>
      join (js ",")
        (List.map (fun x => match x with
                            | VUndef | VNull => []
                            | _ => toString x
                            end) xs)
  | VObj _ => js "[object Object]"
  end.

(** [xs.join(sep)]: null and undefined elements print as the empty string. *)
Definition array_join (sep : jsstring) (xs : list value) : jsstring :=
  join sep (List.map (fun x => if nullish x then [] else toString x) xs).

(** [v === "s"]. *)
Definition is_str (v : value) (s : jsstring) : bool :=
  match v with VStr s' => bool_decide (s' = s) | _ => false end.

(** [s.startsWith(p)] and [s.includes(p)]. *)
Fixpoint startsWith (s p : jsstring) : bool :=
  match p, s with
  | [], _ => true
  | c :: p', d :: s' => bool_decide (c = d) && startsWith s' p'
  | _ :: _, [] => false
  end.

Fixpoint includes (s p : jsstring) : bool :=
  startsWith s p ||
  match s with
  | [] => false
  | _ :: s' => includes s' p
  end.

(** An optional string as a value, for object literals:
    [undefined] when absent. *)
Definition of_opt (o : option jsstring) : value :=
  match o with Some s => VStr s | None => VUndef end.

(** ** Platform: [Buffer.from(s, "base64")] and [buf.toString("utf8")] *)

Definition sextet (c : N) : option N :=
  if (65 <=? c) && (c <=? 90) then Some (c - 65)
  else if (97 <=? c) && (c <=? 122) then Some (c - 71)
  else if (48 <=? c) && (c <=? 57) then Some (c + 4)
  else if (c =? 43) || (c =? 45) then Some 62
  else if (c =? 47) || (c =? 95) then Some 63
  else None.

(** The decoder reads up to the first padding character and skips what is
    outside the alphabet. *)
Fixpoint sextets (s : jsstring) : list N :=
  match s with
  | [] => []
  | c :: rest =>
      if c =? 61 then []
      else match sextet c with
           | Some v => v :: sextets rest
           | None => sextets rest
           end
  end.

Fixpoint bytes_of_sextets (l : list N) : list N :=
  match l with
  | a :: b :: c :: d :: rest =>
      N.lor (N.shiftl a 2) (N.shiftr b 4)
      :: N.lor (N.shiftl (N.land b 15) 4) (N.shiftr c 2)
      :: N.lor (N.shiftl (N.land c 3) 6) d
      :: bytes_of_sextets rest
  | [a; b; c] =>
      [N.lor (N.shiftl a 2) (N.shiftr b 4);
       N.lor (N.shiftl (N.land b 15) 4) (N.shiftr c 2)]
  | [a; b] => [N.lor (N.shiftl a 2) (N.shiftr b 4)]
  | _ => []
  end.

Definition base64_bytes (s : jsstring) : list N := bytes_of_sextets (sextets s).

(** UTF-8 decoding to UTF-16 code units; an ill-formed sequence yields
    U+FFFD per maximal subpart. *)
Record utf8_state := Utf8 {
  u_need : nat;   (* continuation bytes still expected *)
  u_cp : N;       (* code point so far *)
  u_lo : N;       (* bounds of the next continuation byte *)
  u_hi : N
}.

Definition utf8_idle : utf8_state := Utf8 0 0 128 191.

Definition utf16_units (cp : N) : list N :=
  if cp <? 65536 then [cp]
  else [55296 + N.shiftr (cp - 65536) 10; 56320 + N.land (cp - 65536) 1023].

Definition utf8_lead (b : N) : list N * utf8_state :=
  if b <=? 127 then ([b], utf8_idle)
  else if (194 <=? b) && (b <=? 223) then ([], Utf8 1 (N.land b 31) 128 191)
  else if (224 <=? b) && (b <=? 239) then
    ([], Utf8 2 (N.land b 15) (if b =? 224 then 160 else 128)
                              (if b =? 237 then 159 else 191))
  else if (240 <=? b) && (b <=? 244) then
    ([], Utf8 3 (N.land b 7) (if b =? 240 then 144 else 128)
                             (if b =? 244 then 143 else 191))
  else ([65533], utf8_idle).

Definition utf8_step (st : utf8_state) (b : N) : list N * utf8_state :=
  match u_need st with
  | O => utf8_lead b
  | S k =>
      if (u_lo st <=? b) && (b <=? u_hi st) then
        let cp := N.lor (N.shiftl (u_cp st) 6) (N.land b 63) in
        match k with
        | O => (utf16_units cp, utf8_idle)
        | S _ => ([], Utf8 k cp 128 191)
        end
      else
        let '(out, st') := utf8_lead b in (65533 :: out, st')
  end.

Fixpoint utf8_run (st : utf8_state) (bytes : list N) : jsstring :=
  match bytes with
  | [] => match u_need st with O => [] | S _ => [65533] end
  | b :: rest => let '(out, st') := utf8_step st b in out ++ utf8_run st' rest
  end.

Definition utf8_string (bytes : list N) : jsstring := utf8_run utf8_idle bytes.

(** ** Data model *)

Open Scope js_scope.

Inductive SandboxMode := read_only | workspace_write | danger_full_access.

Record WorkspaceContext := {
  workspaceRoot : jsstring;
  workspaceName : option jsstring;
  systemPrompt : option jsstring;
  wc_sessionId : option jsstring
}.

Record ThreadContext := {
  tc_sessionId : jsstring;
  tc_cwd : jsstring
}.

Record CommandExecution := {
  ce_threadId : option jsstring;
  ce_turnId : option jsstring;
  ce_command : option jsstring;
  ce_cwd : option jsstring
}.

(** The two wire decisions of [mapDecision]. *)
Inductive WireDecision := accept | decline.

Definition decision_string (d : WireDecision) : jsstring :=
  match d with accept => js "accept" | decline => js "decline" end.

Inductive ApprovalKind := command | file_write.

(** [ApprovalRequestWithResponder]; [riskLevel] is always "med" and
    [status] always "pending" here.  The responder closure is given by the
    request id it closes over. *)
Record ApprovalRequest := {
  ap_id : jsstring;
  ap_sessionId : jsstring;
  ap_turnId : jsstring;
  ap_kind : ApprovalKind;
  ap_title : jsstring;
  ap_details : value;
  ap_createdAt : jsstring;
  ap_codexApprovalId : jsstring;
  ap_respond : option value
}.

Inductive DeltaKind := agentMessage | commandOutput | reasoningSummary.

Inductive EventType :=
| thread_started | turn_started | turn_completed
| item_started | item_completed | item_delta
| approval_request | error.

Inductive Payload :=
| PThread (threadId : jsstring)
| PTurnCompleted (threadId : jsstring) (status err : value)
| PItem (threadId : jsstring) (item : value)
| PDelta (threadId : jsstring) (itemId : value) (kind : DeltaKind)
         (delta : jsstring) (summaryIndex : value)
| PApproval (approval : ApprovalRequest)
| PError (message : jsstring) (recoverable : bool).

Record TransportEvent := {
  ev_type : EventType;
  ev_sessionId : jsstring;
  ev_turnId : option jsstring;
  ev_createdAt : jsstring;
  ev_payload : Payload
}.

(** The thread id an event's payload names, when it names one. *)
Definition payload_threadId (p : Payload) : option jsstring :=
  match p with
  | PThread t | PTurnCompleted t _ _ | PItem t _ | PDelta t _ _ _ _ => Some t
  | PApproval _ | PError _ _ => None
  end.

(** Continuation of an async method suspended on [await this.rpc(...)];
    [call] names the promise the method returned to its caller. *)
Inductive cont :=
| KCreateThread (call : nat) (context : WorkspaceContext)
| KSendUserMessage (call : nat) (threadId : jsstring)
| KCancel (call : nat)
| KRespondApproval (call : nat).

(** [PendingRequest]: [resolve] and [reject] both resume [pr_cont]. *)
Record PendingRequest := {
  pr_cont : cont;
  pr_method : jsstring
}.

(** An async method suspended on [await this.ready]. *)
Inductive operation :=
| OpCreateThread (call : nat) (context : WorkspaceContext)
| OpSendUserMessage (call : nat) (threadId text : jsstring)
                    (attachments : option (list jsstring))
| OpCancel (call : nat) (targetId : jsstring).

Inductive settlement :=
| Fulfilled (v : value)
| Rejected (message : jsstring).

(** A reaction queued by settling a promise. *)
Inductive job :=
| JAfterReady (op : operation) (failure : option jsstring)
| JAfterRpc (k : cont) (r : settlement).

(** The promise [this.ready] with the methods awaiting it. *)
Inductive ReadyPromise :=
| ReadyPending (waiters : list operation)
| ReadyResolved
| ReadyRejected (message : jsstring).

Record CodexTransportOptions := {
  opt_model : option jsstring;
  opt_sandbox : option SandboxMode;
  opt_approvalPolicy : option jsstring
}.

(** The fields [model], [sandbox] and [approvalPolicy], fixed at
    construction. *)
Record Config := {
  model : jsstring;
  sandbox : SandboxMode;
  approvalPolicy : jsstring
}.

(** What the platform's clock answers during one reaction:
    [new Date().toISOString()] and [Date.now()]. *)
Record clock := {
  iso : jsstring;
  millis : Z
}.

(** ** The transport's state *)

Record state := {
  stdin_writable : bool;   (* proc.stdin.writable *)
  outbox : list value;   (* messages written to the peer, oldest first *)
  emitted : list TransportEvent;   (* events handed to the listeners, oldest first *)
  pendingRequests : list (Z * PendingRequest);   (* in insertion order *)
  pendingApprovals : gmap jsstring value;   (* the request id each responder answers *)
  threadContexts : gmap jsstring ThreadContext;
  turnToThread : gmap jsstring jsstring;
  pendingThreadNotifications : gset jsstring;
  pendingNotificationApprovals : gmap jsstring (jsstring * value);   (* method and params *)
  agentMessageBuffers : gmap jsstring jsstring;
  seenThreads : gset jsstring;
  commandExecutions : gmap jsstring CommandExecution;
  nextId : Z;
  initRequestId : option Z;
  ready : ReadyPromise;
  config : Config;
  jobs : list job;   (* the job queue, next job first *)
  settled : list (nat * settlement)   (* outcomes of the promises returned to callers *)
}.

(** Field updates: [set_f x st] is [st] with field [f] set to [x]. *)

Definition set_stdin_writable (x : bool) (st : state) : state :=
  {| stdin_writable := x;
     outbox := outbox st;
     emitted := emitted st;
     pendingRequests := pendingRequests st;
     pendingApprovals := pendingApprovals st;
     threadContexts := threadContexts st;
     turnToThread := turnToThread st;
     pendingThreadNotifications := pendingThreadNotifications st;
     pendingNotificationApprovals := pendingNotificationApprovals st;
     agentMessageBuffers := agentMessageBuffers st;
     seenThreads := seenThreads st;
     commandExecutions := commandExecutions st;
     nextId := nextId st;
     initRequestId := initRequestId st;
     ready := ready st;
     config := config st;
     jobs := jobs st;
     settled := settled st |}.

Definition set_outbox (x : list value) (st : state) : state :=
  {| stdin_writable := stdin_writable st;
     outbox := x;
     emitted := emitted st;
     pendingRequests := pendingRequests st;
     pendingApprovals := pendingApprovals st;
     threadContexts := threadContexts st;
     turnToThread := turnToThread st;
     pendingThreadNotifications := pendingThreadNotifications st;
     pendingNotificationApprovals := pendingNotificationApprovals st;
     agentMessageBuffers := agentMessageBuffers st;
     seenThreads := seenThreads st;
     commandExecutions := commandExecutions st;
     nextId := nextId st;
     initRequestId := initRequestId st;
     ready := ready st;
     config := config st;
     jobs := jobs st;
     settled := settled st |}.

Definition set_emitted (x : list TransportEvent) (st : state) : state :=
  {| stdin_writable := stdin_writable st;
     outbox := outbox st;
     emitted := x;
     pendingRequests := pendingRequests st;
     pendingApprovals := pendingApprovals st;
     threadContexts := threadContexts st;
     turnToThread := turnToThread st;
     pendingThreadNotifications := pendingThreadNotifications st;
     pendingNotificationApprovals := pendingNotificationApprovals st;
     agentMessageBuffers := agentMessageBuffers st;
     seenThreads := seenThreads st;
     commandExecutions := commandExecutions st;
     nextId := nextId st;
     initRequestId := initRequestId st;
     ready := ready st;
     config := config st;
     jobs := jobs st;
     settled := settled st |}.

Definition set_pendingRequests (x : list (Z * PendingRequest)) (st : state) : state :=
  {| stdin_writable := stdin_writable st;
     outbox := outbox st;
     emitted := emitted st;
     pendingRequests := x;
     pendingApprovals := pendingApprovals st;
     threadContexts := threadContexts st;
     turnToThread := turnToThread st;
     pendingThreadNotifications := pendingThreadNotifications st;
     pendingNotificationApprovals := pendingNotificationApprovals st;
     agentMessageBuffers := agentMessageBuffers st;
     seenThreads := seenThreads st;
     commandExecutions := commandExecutions st;
     nextId := nextId st;
     initRequestId := initRequestId st;
     ready := ready st;
     config := config st;
     jobs := jobs st;
     settled := settled st |}.

Definition set_pendingApprovals (x : gmap jsstring value) (st : state) : state :=
  {| stdin_writable := stdin_writable st;
     outbox := outbox st;
     emitted := emitted st;
     pendingRequests := pendingRequests st;
     pendingApprovals := x;
     threadContexts := threadContexts st;
     turnToThread := turnToThread st;
     pendingThreadNotifications := pendingThreadNotifications st;
     pendingNotificationApprovals := pendingNotificationApprovals st;
     agentMessageBuffers := agentMessageBuffers st;
     seenThreads := seenThreads st;
     commandExecutions := commandExecutions st;
     nextId := nextId st;
     initRequestId := initRequestId st;
     ready := ready st;
     config := config st;
     jobs := jobs st;
     settled := settled st |}.

Definition set_threadContexts (x : gmap jsstring ThreadContext) (st : state) : state :=
  {| stdin_writable := stdin_writable st;
     outbox := outbox st;
     emitted := emitted st;
     pendingRequests := pendingRequests st;
     pendingApprovals := pendingApprovals st;
     threadContexts := x;
     turnToThread := turnToThread st;
     pendingThreadNotifications := pendingThreadNotifications st;
     pendingNotificationApprovals := pendingNotificationApprovals st;
     agentMessageBuffers := agentMessageBuffers st;
     seenThreads := seenThreads st;
     commandExecutions := commandExecutions st;
     nextId := nextId st;
     initRequestId := initRequestId st;
     ready := ready st;
     config := config st;
     jobs := jobs st;
     settled := settled st |}.

Definition set_turnToThread (x : gmap jsstring jsstring) (st : state) : state :=
  {| stdin_writable := stdin_writable st;
     outbox := outbox st;
     emitted := emitted st;
     pendingRequests := pendingRequests st;
     pendingApprovals := pendingApprovals st;
     threadContexts := threadContexts st;
     turnToThread := x;
     pendingThreadNotifications := pendingThreadNotifications st;
     pendingNotificationApprovals := pendingNotificationApprovals st;
     agentMessageBuffers := agentMessageBuffers st;
     seenThreads := seenThreads st;
     commandExecutions := commandExecutions st;
     nextId := nextId st;
     initRequestId := initRequestId st;
     ready := ready st;
     config := config st;
     jobs := jobs st;
     settled := settled st |}.

Definition set_pendingThreadNotifications (x : gset jsstring) (st : state) : state :=
  {| stdin_writable := stdin_writable st;
     outbox := outbox st;
     emitted := emitted st;
     pendingRequests := pendingRequests st;
     pendingApprovals := pendingApprovals st;
     threadContexts := threadContexts st;
     turnToThread := turnToThread st;
     pendingThreadNotifications := x;
     pendingNotificationApprovals := pendingNotificationApprovals st;
     agentMessageBuffers := agentMessageBuffers st;
     seenThreads := seenThreads st;
     commandExecutions := commandExecutions st;
     nextId := nextId st;
     initRequestId := initRequestId st;
     ready := ready st;
     config := config st;
     jobs := jobs st;
     settled := settled st |}.

Definition set_pendingNotificationApprovals (x : gmap jsstring (jsstring * value)) (st : state) : state :=
  {| stdin_writable := stdin_writable st;
     outbox := outbox st;
     emitted := emitted st;
     pendingRequests := pendingRequests st;
     pendingApprovals := pendingApprovals st;
     threadContexts := threadContexts st;
     turnToThread := turnToThread st;
     pendingThreadNotifications := pendingThreadNotifications st;
     pendingNotificationApprovals := x;
     agentMessageBuffers := agentMessageBuffers st;
     seenThreads := seenThreads st;
     commandExecutions := commandExecutions st;
     nextId := nextId st;
     initRequestId := initRequestId st;
     ready := ready st;
     config := config st;
     jobs := jobs st;
     settled := settled st |}.

Definition set_agentMessageBuffers (x : gmap jsstring jsstring) (st : state) : state :=
  {| stdin_writable := stdin_writable st;
     outbox := outbox st;
     emitted := emitted st;
     pendingRequests := pendingRequests st;
     pendingApprovals := pendingApprovals st;
     threadContexts := threadContexts st;
     turnToThread := turnToThread st;
     pendingThreadNotifications := pendingThreadNotifications st;
     pendingNotificationApprovals := pendingNotificationApprovals st;
     agentMessageBuffers := x;
     seenThreads := seenThreads st;
     commandExecutions := commandExecutions st;
     nextId := nextId st;
     initRequestId := initRequestId st;
     ready := ready st;
     config := config st;
     jobs := jobs st;
     settled := settled st |}.

Definition set_seenThreads (x : gset jsstring) (st : state) : state :=
  {| stdin_writable := stdin_writable st;
     outbox := outbox st;
     emitted := emitted st;
     pendingRequests := pendingRequests st;
     pendingApprovals := pendingApprovals st;
     threadContexts := threadContexts st;
     turnToThread := turnToThread st;
     pendingThreadNotifications := pendingThreadNotifications st;
     pendingNotificationApprovals := pendingNotificationApprovals st;
     agentMessageBuffers := agentMessageBuffers st;
     seenThreads := x;
     commandExecutions := commandExecutions st;
     nextId := nextId st;
     initRequestId := initRequestId st;
     ready := ready st;
     config := config st;
     jobs := jobs st;
     settled := settled st |}.

Definition set_commandExecutions (x : gmap jsstring CommandExecution) (st : state) : state :=
  {| stdin_writable := stdin_writable st;
     outbox := outbox st;
     emitted := emitted st;
     pendingRequests := pendingRequests st;
     pendingApprovals := pendingApprovals st;
     threadContexts := threadContexts st;
     turnToThread := turnToThread st;
     pendingThreadNotifications := pendingThreadNotifications st;
     pendingNotificationApprovals := pendingNotificationApprovals st;
     agentMessageBuffers := agentMessageBuffers st;
     seenThreads := seenThreads st;
     commandExecutions := x;
     nextId := nextId st;
     initRequestId := initRequestId st;
     ready := ready st;
     config := config st;
     jobs := jobs st;
     settled := settled st |}.

Definition set_nextId (x : Z) (st : state) : state :=
  {| stdin_writable := stdin_writable st;
     outbox := outbox st;
     emitted := emitted st;
     pendingRequests := pendingRequests st;
     pendingApprovals := pendingApprovals st;
     threadContexts := threadContexts st;
     turnToThread := turnToThread st;
     pendingThreadNotifications := pendingThreadNotifications st;
     pendingNotificationApprovals := pendingNotificationApprovals st;
     agentMessageBuffers := agentMessageBuffers st;
     seenThreads := seenThreads st;
     commandExecutions := commandExecutions st;
     nextId := x;
     initRequestId := initRequestId st;
     ready := ready st;
     config := config st;
     jobs := jobs st;
     settled := settled st |}.

Definition set_initRequestId (x : option Z) (st : state) : state :=
  {| stdin_writable := stdin_writable st;
     outbox := outbox st;
     emitted := emitted st;
     pendingRequests := pendingRequests st;
     pendingApprovals := pendingApprovals st;
     threadContexts := threadContexts st;
     turnToThread := turnToThread st;
     pendingThreadNotifications := pendingThreadNotifications st;
     pendingNotificationApprovals := pendingNotificationApprovals st;
     agentMessageBuffers := agentMessageBuffers st;
     seenThreads := seenThreads st;
     commandExecutions := commandExecutions st;
     nextId := nextId st;
     initRequestId := x;
     ready := ready st;
     config := config st;
     jobs := jobs st;
     settled := settled st |}.

Definition set_ready (x : ReadyPromise) (st : state) : state :=
  {| stdin_writable := stdin_writable st;
     outbox := outbox st;
     emitted := emitted st;
     pendingRequests := pendingRequests st;
     pendingApprovals := pendingApprovals st;
     threadContexts := threadContexts st;
     turnToThread := turnToThread st;
     pendingThreadNotifications := pendingThreadNotifications st;
     pendingNotificationApprovals := pendingNotificationApprovals st;
     agentMessageBuffers := agentMessageBuffers st;
     seenThreads := seenThreads st;
     commandExecutions := commandExecutions st;
     nextId := nextId st;
     initRequestId := initRequestId st;
     ready := x;
     config := config st;
     jobs := jobs st;
     settled := settled st |}.

Definition set_jobs (x : list job) (st : state) : state :=
  {| stdin_writable := stdin_writable st;
     outbox := outbox st;
     emitted := emitted st;
     pendingRequests := pendingRequests st;
     pendingApprovals := pendingApprovals st;
     threadContexts := threadContexts st;
     turnToThread := turnToThread st;
     pendingThreadNotifications := pendingThreadNotifications st;
     pendingNotificationApprovals := pendingNotificationApprovals st;
     agentMessageBuffers := agentMessageBuffers st;
     seenThreads := seenThreads st;
     commandExecutions := commandExecutions st;
     nextId := nextId st;
     initRequestId := initRequestId st;
     ready := ready st;
     config := config st;
     jobs := x;
     settled := settled st |}.

Definition set_settled (x : list (nat * settlement)) (st : state) : state :=
  {| stdin_writable := stdin_writable st;
     outbox := outbox st;
     emitted := emitted st;
     pendingRequests := pendingRequests st;
     pendingApprovals := pendingApprovals st;
     threadContexts := threadContexts st;
     turnToThread := turnToThread st;
     pendingThreadNotifications := pendingThreadNotifications st;
     pendingNotificationApprovals := pendingNotificationApprovals st;
     agentMessageBuffers := agentMessageBuffers st;
     seenThreads := seenThreads st;
     commandExecutions := commandExecutions st;
     nextId := nextId st;
     initRequestId := initRequestId st;
     ready := ready st;
     config := config st;
     jobs := jobs st;
     settled := x |}.

(** ** Identity extraction *)

(** A field the source casts to [string | undefined] and then tests with
    [!x]: the string when it is a non-empty string.  Peer messages are
    taken to respect the declared field types. *)
Definition truthy_string (v : value) : option jsstring :=
  match v with
  | VStr s => if bool_decide (s = []) then None else Some s
  | _ => None
  end.

(** Truthiness of an optional string. *)
Definition nonempty (o : option jsstring) : bool :=
  match o with
  | Some s => negb (bool_decide (s = []))
  | None => false
  end.

(** [a ?? b] on optional strings. *)
Definition opt_or (a b : option jsstring) : option jsstring :=
  match a with Some _ => a | None => b end.

Definition resolveThreadId (params : value) : option jsstring :=
  let value :=
    params ?> "threadId" |||
    params ?> "thread_id" |||
    params ?> "thread" ?> "id" |||
    params ?> "conversationId" |||
    params ?> "item" ?> "threadId" |||
    params ?> "item" ?> "thread_id" in
  if nullish value then None else Some (toString value).

Definition resolveTurnId (params : value) : option jsstring :=
  let value :=
    params ?> "turnId" |||
    params ?> "turn_id" |||
    params ?> "turn" ?> "id" |||
    params ?> "item" ?> "turnId" |||
    params ?> "item" ?> "turn_id" in
  if nullish value then None else Some (toString value).

Definition extractCommand (params : value) : option jsstring :=
  let command :=
    params ?> "command" |||
    params ?> "parsedCmd" ?> "cmd" |||
    params ?> "parsed_cmd" |||
    params ?> "item" ?> "command" |||
    params ?> "item" ?> "parsedCmd" ?> "cmd" |||
    params ?> "item" ?> "parsed_cmd" in
  if negb (truthy command) then None
  else match command with
       | VArr parts => Some (array_join (js " ") parts)
       | VStr s => Some s
       | _ => None
       end.

Definition extractApprovalId (params : value) : option jsstring :=
  let id :=
    params ?> "approvalId" |||
    params ?> "approval_id" |||
    params ?> "requestId" |||
    params ?> "request_id" |||
    params ?> "id" in
  if negb (truthy id) then None else Some (toString id).

Definition mapDecision (decision : jsstring) : WireDecision :=
  if startsWith decision (js "approve") then accept else decline.

Definition normalizeCommand (command : value) : option jsstring :=
  if negb (truthy command) then None
  else match command with
       | VArr parts => Some (join (js " ") (List.map toString parts))
       | VStr s => Some s
       | _ => None
       end.

(** ** Chunk decoding *)

(** The character class [[A-Za-z0-9+/]]. *)
Definition base64_class (c : N) : bool :=
  ((65 <=? c) && (c <=? 90)) || ((97 <=? c) && (c <=? 122)) ||
  ((48 <=? c) && (c <=? 57)) || (c =? 43) || (c =? 47).

Fixpoint skip_class (s : jsstring) : jsstring :=
  match s with
  | [] => []
  | c :: rest => if base64_class c then skip_class rest else s
  end.

(** [/^[A-Za-z0-9+/]+={0,2}$/.test(s)]. *)
Definition base64Pattern_test (s : jsstring) : bool :=
  match s with
  | [] => false
  | c :: rest =>
      base64_class c &&
      (let tail := skip_class rest in
       bool_decide (tail = []) || bool_decide (tail = [61]) ||
       bool_decide (tail = [61; 61]))
  end.

Definition decodeChunk (chunk : jsstring) : jsstring :=
  if bool_decide (chunk = []) then []
  else if (N.of_nat (length chunk) mod 4 =? 0) && base64Pattern_test chunk
       then utf8_string (base64_bytes chunk)
       else chunk.

(** ** Event normalizer *)

Definition emitEvent (event : TransportEvent) (st : state) : state :=
  set_emitted (emitted st ++ [event]) st.

Definition session_of_thread (st : state) (threadId : option jsstring)
  : option jsstring :=
  match threadId with
  | Some t =>
      if bool_decide (t = []) then None
      else tc_sessionId <$> threadContexts st !! t
  | None => None
  end.

Definition resolveSessionId (st : state) (threadId turnId : option jsstring)
  : jsstring :=
  match session_of_thread st threadId with
  | Some session => session
  | None =>
      match (if nonempty turnId then turnId ≫= (fun u => turnToThread st !! u)
             else None) with
      | Some thread =>
          match session_of_thread st (Some thread) with
          | Some session => session
          | None => thread
          end
      | None =>
          match threadId with
          | Some t => t
          | None => match turnId with
                    | Some u => u
                    | None => js "unknown"
                    end
          end
      end
  end.

Definition emitThreadStarted (now : clock) (threadId : jsstring) (st : state)
  : state :=
  if bool_decide (threadId ∈ seenThreads st) then st
  else
    let st := set_seenThreads ({[threadId]} ∪ seenThreads st) st in
    let sessionId := resolveSessionId st (Some threadId) None in
    emitEvent {| ev_type := thread_started;
                 ev_sessionId := sessionId;
                 ev_turnId := None;
                 ev_createdAt := iso now;
                 ev_payload := PThread threadId |} st.

Definition flushThreadNotification (now : clock) (threadId : jsstring)
  (st : state) : state :=
  if bool_decide (threadId ∈ pendingThreadNotifications st) then
    emitThreadStarted now threadId
      (set_pendingThreadNotifications
         (pendingThreadNotifications st ∖ {[threadId]}) st)
  else st.

(** [requestId] is [VUndef] when the approval came as a notification. *)
Definition emitApprovalRequest (now : clock) (method : jsstring)
  (params requestId : value) (st : state) : state :=
  let threadId := resolveThreadId params in
  let turnId := default (js "unknown") (resolveTurnId params) in
  let sessionId := resolveSessionId st threadId (Some turnId) in
  let '(approvalId, st) :=
    if truthy requestId then (toString requestId, st)
    else match extractApprovalId params with
         | Some id => (id, st)
         | None =>
             (js "approval_" ++ js (pretty (millis now)) ++ js "_" ++
                js (pretty (nextId st)),
              set_nextId (nextId st + 1)%Z st)
         end in
  let kind :=
    if includes method (js "commandExecution") then command else file_write in
  let title :=
    match kind with
    | command => js "Approve command?"
    | file_write => js "Approve file edits?"
    end in
  let details :=
    VObj ([(js "method", VStr method); (js "params", params)] ++
          match extractCommand params with
          | Some c => if bool_decide (c = []) then [] else [(js "command", VStr c)]
          | None => []
          end) in
  let approval :=
    {| ap_id := approvalId;
       ap_sessionId := sessionId;
       ap_turnId := turnId;
       ap_kind := kind;
       ap_title := title;
       ap_details := details;
       ap_createdAt := iso now;
       ap_codexApprovalId := approvalId;
       ap_respond := if truthy requestId then Some requestId else None |} in
  let st :=
    if truthy requestId then
      set_pendingApprovals (<[approvalId := requestId]> (pendingApprovals st)) st
    else
      set_pendingNotificationApprovals
        (<[approvalId := (method, params)]> (pendingNotificationApprovals st)) st in
  emitEvent {| ev_type := approval_request;
               ev_sessionId := sessionId;
               ev_turnId := Some turnId;
               ev_createdAt := iso now;
               ev_payload := PApproval approval |} st.

Definition callId_of (msg : value) : jsstring :=
  toString (msg ?> "call_id" ?? msg ?> "callId" ?? VStr []).

Definition handleCodexEvent (method : jsstring) (params : value) (now : clock)
  (st : state) : state :=
  let msg := params ?> "msg" ?? VObj [] in
  let threadId := opt_or (resolveThreadId params) (resolveThreadId msg) in
  let turnId :=
    match opt_or (resolveTurnId params) (resolveTurnId msg) with
    | Some u => u
    | None => toString (params ?> "id" ?? VStr [])
    end in
  match threadId with
  | None => st
  | Some threadId =>
  if bool_decide (threadId = []) || bool_decide (turnId = []) then st
  else if bool_decide (method = js "codex/event/exec_command_begin") then
    let callId := callId_of msg in
    let command :=
      normalizeCommand
        (msg ?> "command" ?? msg ?> "parsed_cmd" ?? msg ?> "parsedCmd") in
    let st :=
      set_commandExecutions
        (<[callId := {| ce_threadId := Some threadId;
                        ce_turnId := Some turnId;
                        ce_command := command;
                        ce_cwd := if truthy (msg ?> "cwd")
                                  then Some (toString (msg ?> "cwd"))
                                  else None |}]> (commandExecutions st)) st in
    emitEvent
      {| ev_type := item_started;
         ev_sessionId := resolveSessionId st (Some threadId) (Some turnId);
         ev_turnId := Some turnId;
         ev_createdAt := iso now;
         ev_payload :=
           PItem threadId
             (VObj [(js "type", VStr (js "commandExecution"));
                    (js "id", VStr callId);
                    (js "command", of_opt command);
                    (js "cwd", msg ?> "cwd" ?? VUndef);
                    (js "status", VStr (js "inProgress"))]) |} st
  else if bool_decide (method = js "codex/event/exec_command_output_delta") then
    let callId := callId_of msg in
    let chunk :=
      match msg ?> "chunk" with VStr s => s | _ => [] end in
    let delta := decodeChunk chunk in
    let context := commandExecutions st !! callId in
    let resolvedThreadId :=
      default threadId (context ≫= ce_threadId) in
    let resolvedTurnId :=
      default turnId (context ≫= ce_turnId) in
    if bool_decide (delta = []) then st
    else
      emitEvent
        {| ev_type := item_delta;
           ev_sessionId :=
             resolveSessionId st (Some resolvedThreadId) (Some resolvedTurnId);
           ev_turnId := Some resolvedTurnId;
           ev_createdAt := iso now;
           ev_payload :=
             PDelta resolvedThreadId (VStr callId) commandOutput delta VUndef |}
        st
  else if bool_decide (method = js "codex/event/exec_command_end") then
    let callId := callId_of msg in
    let context := commandExecutions st !! callId in
    let st := set_commandExecutions (delete callId (commandExecutions st)) st in
    let resolvedThreadId :=
      default threadId (context ≫= ce_threadId) in
    let resolvedTurnId :=
      default turnId (context ≫= ce_turnId) in
    emitEvent
      {| ev_type := item_completed;
         ev_sessionId :=
           resolveSessionId st (Some resolvedThreadId) (Some resolvedTurnId);
         ev_turnId := Some resolvedTurnId;
         ev_createdAt := iso now;
         ev_payload :=
           PItem resolvedThreadId
             (VObj [(js "type", VStr (js "commandExecution"));
                    (js "id", VStr callId);
                    (js "exitCode",
                      msg ?> "exit_code" ?? msg ?> "exitCode" ?? VUndef);
                    (js "durationMs",
                      msg ?> "duration_ms" ?? msg ?> "durationMs" ?? VUndef)]) |}
      st
  else if bool_decide (method = js "codex/event/agent_message_content_delta")
          || bool_decide (method = js "codex/event/agent_message_delta") then
    let delta :=
      toString (msg ?> "delta" ?? msg ?> "content" ?? msg ?> "text" ?? VStr []) in
    if bool_decide (delta = []) then st
    else
      emitEvent
        {| ev_type := item_delta;
           ev_sessionId := resolveSessionId st (Some threadId) (Some turnId);
           ev_turnId := Some turnId;
           ev_createdAt := iso now;
           ev_payload := PDelta threadId VUndef agentMessage delta VUndef |} st
  else st
  end.

Definition handleNotification (method : jsstring) (params : value) (now : clock)
  (st : state) : state :=
  if startsWith method (js "codex/event/") then
    handleCodexEvent method params now st
  else if bool_decide (method = js "thread/started") then
    match truthy_string (params ?> "thread" ?> "id") with
    | None => st
    | Some threadId =>
        match threadContexts st !! threadId with
        | None =>
            set_pendingThreadNotifications
              ({[threadId]} ∪ pendingThreadNotifications st) st
        | Some _ => emitThreadStarted now threadId st
        end
    end
  else if bool_decide (method = js "turn/started") then
    match truthy_string (params ?> "threadId"),
          truthy_string (params ?> "turn" ?> "id") with
    | Some threadId, Some turnId =>
        let st := set_turnToThread (<[turnId := threadId]> (turnToThread st)) st in
        emitEvent {| ev_type := turn_started;
                     ev_sessionId := resolveSessionId st (Some threadId) None;
                     ev_turnId := Some turnId;
                     ev_createdAt := iso now;
                     ev_payload := PThread threadId |} st
    | _, _ => st
    end
  else if bool_decide (method = js "turn/completed") then
    let turn := params ?> "turn" in
    match truthy_string (params ?> "threadId") with
    | Some threadId =>
        if negb (truthy (turn ?> "id")) then st
        else
          emitEvent {| ev_type := turn_completed;
                       ev_sessionId := resolveSessionId st (Some threadId) None;
                       ev_turnId := Some (toString (turn ?> "id"));
                       ev_createdAt := iso now;
                       ev_payload :=
                         PTurnCompleted threadId (turn ?> "status")
                                        (turn ?> "error" ?? VUndef) |} st
    | None => st
    end
  else if bool_decide (method = js "item/started")
          || bool_decide (method = js "item/completed") then
    let item := params ?> "item" in
    match truthy_string (params ?> "threadId"),
          truthy_string (params ?> "turnId") with
    | Some threadId, Some turnId =>
        if negb (truthy item) then st
        else
          let st :=
            if bool_decide (method = js "item/completed")
               && is_str (item ?> "type") (js "agentMessage")
            then match truthy_string (item ?> "id") with
                 | Some itemId =>
                     set_agentMessageBuffers
                       (delete itemId (agentMessageBuffers st)) st
                 | None => st
                 end
            else st in
          emitEvent {| ev_type := if bool_decide (method = js "item/started")
                                  then item_started else item_completed;
                       ev_sessionId := resolveSessionId st (Some threadId) None;
                       ev_turnId := Some turnId;
                       ev_createdAt := iso now;
                       ev_payload := PItem threadId item |} st
    | _, _ => st
    end
  else if bool_decide (method = js "item/agentMessage/delta") then
    let itemId := params ?> "itemId" in
    match truthy_string (params ?> "threadId"),
          truthy_string (params ?> "turnId"),
          truthy_string (params ?> "delta") with
    | Some threadId, Some turnId, Some delta =>
        let st :=
          match truthy_string itemId with
          | Some key =>
              let current := default [] (agentMessageBuffers st !! key) in
              set_agentMessageBuffers
                (<[key := current ++ delta]> (agentMessageBuffers st)) st
          | None => st
          end in
        emitEvent {| ev_type := item_delta;
                     ev_sessionId := resolveSessionId st (Some threadId) None;
                     ev_turnId := Some turnId;
                     ev_createdAt := iso now;
                     ev_payload :=
                       PDelta threadId itemId agentMessage delta VUndef |} st
    | _, _, _ => st
    end
  else if bool_decide (method = js "item/commandExecution/outputDelta") then
    match truthy_string (params ?> "threadId"),
          truthy_string (params ?> "turnId"),
          truthy_string (params ?> "delta") with
    | Some threadId, Some turnId, Some delta =>
        emitEvent {| ev_type := item_delta;
                     ev_sessionId := resolveSessionId st (Some threadId) None;
                     ev_turnId := Some turnId;
                     ev_createdAt := iso now;
                     ev_payload :=
                       PDelta threadId (params ?> "itemId") commandOutput delta
                              VUndef |} st
    | _, _, _ => st
    end
  else if bool_decide (method = js "item/reasoning/summaryTextDelta") then
    match truthy_string (params ?> "threadId"),
          truthy_string (params ?> "turnId"),
          truthy_string (params ?> "delta") with
    | Some threadId, Some turnId, Some delta =>
        emitEvent {| ev_type := item_delta;
                     ev_sessionId := resolveSessionId st (Some threadId) None;
                     ev_turnId := Some turnId;
                     ev_createdAt := iso now;
                     ev_payload :=
                       PDelta threadId (params ?> "itemId") reasoningSummary
                              delta (params ?> "summaryIndex") |} st
    | _, _, _ => st
    end
  else if bool_decide (method = js "item/commandExecution/requestApproval")
          || bool_decide (method = js "item/fileChange/requestApproval") then
    emitApprovalRequest now method params VUndef st
  else st.

(** ** Effects: writes to the peer, exceptions, promises *)

Inductive result (A : Type) : Type :=
| Ok (a : A)
| Throw (message : jsstring).
Arguments Ok {A} a.
Arguments Throw {A} message.

(** A method body: it transforms the state and returns or throws; the
    state changes made before a throw stay. *)
Definition M (A : Type) : Type := state -> state * result A.

Definition ret {A} (a : A) : M A := fun st => (st, Ok a).

Definition bind {A B} (m : M A) (k : A -> M B) : M B :=
  fun st =>
    match m st with
    | (st', Ok a) => k a st'
    | (st', Throw e) => (st', Throw e)
    end.

Definition throw {A} (message : jsstring) : M A := fun st => (st, Throw message).

Definition modify (f : state -> state) : M unit := fun st => (f st, Ok tt).

Definition gets {A} (f : state -> A) : M A := fun st => (st, Ok (f st)).

(** [try { m } catch { h }]. *)
Definition try_catch {A} (m : M A) (h : M A) : M A :=
  fun st =>
    match m st with
    | (st', Ok a) => (st', Ok a)
    | (st', Throw _) => h st'
    end.

Declare Scope m_scope.
Delimit Scope m_scope with M.
Notation "'let*' x := m 'in' k" := (bind m (fun x => k))
  (at level 10, x name, m at level 100, k at level 200) : m_scope.
Notation "m >> k" := (bind m (fun _ => k))
  (at level 90, right associativity) : m_scope.
Open Scope m_scope.

Definition send (message : value) : M unit :=
  fun st =>
    if stdin_writable st then (set_outbox (outbox st ++ [message]) st, Ok tt)
    else (st, Throw (js "codex app-server stdin is not writable")).

(** [Map.prototype.set] on the insertion-ordered pending table. *)
Fixpoint table_set (id : Z) (p : PendingRequest)
  (table : list (Z * PendingRequest)) : list (Z * PendingRequest) :=
  match table with
  | [] => [(id, p)]
  | (id', p') :: rest =>
      if bool_decide (id = id') then (id, p) :: rest
      else (id', p') :: table_set id p rest
  end.

Fixpoint table_get (id : Z) (table : list (Z * PendingRequest))
  : option PendingRequest :=
  match table with
  | [] => None
  | (id', p) :: rest => if bool_decide (id = id') then Some p else table_get id rest
  end.

Definition table_delete (id : Z) (table : list (Z * PendingRequest))
  : list (Z * PendingRequest) :=
  List.filter (fun e => negb (bool_decide (id = fst e))) table.

(** [rpc(method, params)]; [k] is the method suspended on the promise it
    returns. *)
Definition rpc (method : jsstring) (params : value) (k : cont) : M unit :=
  let* id := gets nextId in
  modify (set_nextId (id + 1)%Z) >>
  send (VObj [(js "method", VStr method); (js "id", VNum id);
              (js "params", params)]) >>
  modify (fun st =>
    set_pendingRequests
      (table_set id {| pr_cont := k; pr_method := method |} (pendingRequests st))
      st).

Definition enqueue (j : list job) (st : state) : state :=
  set_jobs (jobs st ++ j) st.

Definition settle (call : nat) (s : settlement) (st : state) : state :=
  set_settled (settled st ++ [(call, s)]) st.

(** [this.readyResolve?.()] and [this.readyReject?.(error)]: a promise
    settles once. *)
Definition readyResolve (st : state) : state :=
  match ready st with
  | ReadyPending waiters =>
      enqueue (List.map (fun op => JAfterReady op None) waiters)
        (set_ready ReadyResolved st)
  | _ => st
  end.

Definition readyReject (message : jsstring) (st : state) : state :=
  match ready st with
  | ReadyPending waiters =>
      enqueue (List.map (fun op => JAfterReady op (Some message)) waiters)
        (set_ready (ReadyRejected message) st)
  | _ => st
  end.

(** [await this.ready] at the head of [op]. *)
Definition await_ready (op : operation) (st : state) : state :=
  match ready st with
  | ReadyPending waiters => set_ready (ReadyPending (waiters ++ [op])) st
  | ReadyResolved => enqueue [JAfterReady op None] st
  | ReadyRejected message => enqueue [JAfterReady op (Some message)] st
  end.

(** A stretch of an async method: [Ok None] when it suspends on an await,
    [Ok (Some v)] when it returns [v], a throw rejects the promise. *)
Definition async (call : nat) (body : M (option value)) (st : state) : state :=
  match body st with
  | (st', Ok (Some v)) => settle call (Fulfilled v) st'
  | (st', Ok None) => st'
  | (st', Throw message) => settle call (Rejected message) st'
  end.

(** ** Handshake and construction *)

Definition startHandshake : M unit :=
  let* id := gets nextId in
  modify (set_nextId (id + 1)%Z) >>
  modify (set_initRequestId (Some id)) >>
  send (VObj [(js "method", VStr (js "initialize"));
              (js "id", VNum id);
              (js "params",
                VObj [(js "clientInfo",
                        VObj [(js "name", VStr (js "sidekick"));
                              (js "title", VStr (js "Sidekick"));
                              (js "version", VStr (js "0.1.0"))])])]).

(** The fields as the constructor leaves them before [startHandshake];
    the spawned process's stdin is open. *)
Definition fresh (opts : CodexTransportOptions) : state :=
  {| stdin_writable := true;
     outbox := [];
     emitted := [];
     pendingRequests := [];
     pendingApprovals := ∅;
     threadContexts := ∅;
     turnToThread := ∅;
     pendingThreadNotifications := ∅;
     pendingNotificationApprovals := ∅;
     agentMessageBuffers := ∅;
     seenThreads := ∅;
     commandExecutions := ∅;
     nextId := 1;
     initRequestId := None;
     ready := ReadyPending [];
     config := {| model := default (js "gpt-5.1-codex") (opt_model opts);
                  sandbox := default workspace_write (opt_sandbox opts);
                  approvalPolicy :=
                    default (js "on-request") (opt_approvalPolicy opts) |};
     jobs := [];
     settled := [] |}.

Definition constructor (opts : CodexTransportOptions) : state :=
  fst (startHandshake (fresh opts)).

(** ** Inbound dispatch *)

(** [this.initRequestId === msg.id]. *)
Definition same_id (init : option Z) (id : value) : bool :=
  match init, id with
  | Some n, VNum m => bool_decide (n = m)
  | None, VNull => true
  | _, _ => false
  end.

Definition handleResponse (msg : value) : M unit :=
  let* init := gets initRequestId in
  if same_id init (msg ?> "id") then
    if truthy (msg ?> "error") then
      modify (readyReject
                (toString (msg ?> "error" ?> "message"
                           ?? VStr (js "initialize failed"))))
    else
      send (VObj [(js "method", VStr (js "initialized"));
                  (js "params", VObj [])]) >>
      modify readyResolve >>
      modify (set_initRequestId None)
  else
    let* table := gets pendingRequests in
    match (match msg ?> "id" with
           | VNum id => (fun p => (id, p)) <$> table_get id table
           | _ => None
           end) with
    | None => ret tt
    | Some (id, pending) =>
        modify (set_pendingRequests (table_delete id table)) >>
        if truthy (msg ?> "error") then
          modify (enqueue
            [JAfterRpc (pr_cont pending)
               (Rejected
                  (toString (msg ?> "error" ?> "message"
                             ?? VStr (js "RPC error: " ++ pr_method pending))))])
        else
          modify (enqueue
            [JAfterRpc (pr_cont pending) (Fulfilled (msg ?> "result"))])
    end.

Definition handleServerRequest (msg : value) (now : clock) : M unit :=
  let method := toString (msg ?> "method") in
  let params := msg ?> "params" ?? VObj [] in
  let isApproval := includes method (js "requestApproval") in
  if isApproval then
    modify (emitApprovalRequest now method params (msg ?> "id"))
  else
    send (VObj [(js "id", msg ?> "id");
                (js "error",
                  VObj [(js "code", VNum (-32000));
                        (js "message",
                          VStr (js "Unhandled request: " ++ method))])]).

Definition is_undefined (v : value) : bool :=
  match v with VUndef => true | _ => false end.

(** [handleLine] after [JSON.parse]: [parsed] is [None] when parsing
    throws.  Reading a property of [null] throws, and so does calling
    [startsWith] on a method name that is not a string. *)
Definition handleLine (parsed : option value) (now : clock) : M unit :=
  match parsed with
  | None => ret tt
  | Some VNull => throw (js "TypeError")
  | Some msg =>
      if truthy (msg ?> "method") && negb (is_undefined (msg ?> "id")) then
        handleServerRequest msg now
      else if negb (is_undefined (msg ?> "id")) then
        handleResponse msg
      else if truthy (msg ?> "method") then
        match msg ?> "method" with
        | VStr method =>
            modify (handleNotification method (msg ?> "params" ?? VObj []) now)
        | _ => throw (js "TypeError")
        end
      else ret tt
  end.

(** ** Peer loss *)

Definition failAll (message : jsstring) (st : state) : state :=
  let st := readyReject message st in
  let st :=
    enqueue (List.map (fun e => JAfterRpc (pr_cont (snd e)) (Rejected message))
                      (pendingRequests st)) st in
  set_pendingRequests [] st.

Definition exit_message (code : option Z) (signal : option jsstring) : jsstring :=
  js "codex app-server exited (code=" ++
  match code with Some c => js (pretty c) | None => js "?" end ++
  js " signal=" ++ default (js "?") signal ++ js ")".

(** The handler of the process's "exit" event. *)
Definition on_exit (code : option Z) (signal : option jsstring) (now : clock)
  (st : state) : state :=
  let message := exit_message code signal in
  let st := failAll message st in
  emitEvent {| ev_type := error;
               ev_sessionId := js "unknown";
               ev_turnId := Some (js "unknown");
               ev_createdAt := iso now;
               ev_payload := PError message true |} st.

(** The handler of the process's "error" event. *)
Definition on_error (message : jsstring) (st : state) : state :=
  failAll message st.

(** ** Public operations *)

Definition sandbox_string (s : SandboxMode) : jsstring :=
  match s with
  | read_only => js "read-only"
  | workspace_write => js "workspace-write"
  | danger_full_access => js "danger-full-access"
  end.

Definition createThread (call : nat) (context : WorkspaceContext) (st : state)
  : state :=
  await_ready (OpCreateThread call context) st.

Definition createThread_afterReady (call : nat) (context : WorkspaceContext)
  (failure : option jsstring) : state -> state :=
  async call
    match failure with
    | Some message => throw message
    | None =>
        let* cfg := gets config in
        rpc (js "thread/start")
            (VObj [(js "model", VStr (model cfg));
                   (js "cwd", VStr (workspaceRoot context));
                   (js "approvalPolicy", VStr (approvalPolicy cfg));
                   (js "sandbox", VStr (sandbox_string (sandbox cfg)))])
            (KCreateThread call context) >>
        ret None
    end.

Definition createThread_afterRpc (call : nat) (context : WorkspaceContext)
  (r : settlement) (now : clock) : state -> state :=
  async call
    match r with
    | Rejected message => throw message
    | Fulfilled result =>
        match truthy_string (result ?> "thread" ?> "id") with
        | None => throw (js "thread/start did not return a thread id")
        | Some threadId =>
            let sessionId := default threadId (wc_sessionId context) in
            modify (fun st =>
              set_threadContexts
                (<[threadId := {| tc_sessionId := sessionId;
                                  tc_cwd := workspaceRoot context |}]>
                   (threadContexts st)) st) >>
            modify (flushThreadNotification now threadId) >>
            modify (emitThreadStarted now threadId) >>
            ret (Some (VStr threadId))
        end
    end.

Definition sendUserMessage (call : nat) (threadId text : jsstring)
  (attachments : option (list jsstring)) (st : state) : state :=
  await_ready (OpSendUserMessage call threadId text attachments) st.

Definition sendUserMessage_afterReady (call : nat) (threadId text : jsstring)
  (attachments : option (list jsstring)) (failure : option jsstring)
  : state -> state :=
  async call
    match failure with
    | Some message => throw message
    | None =>
        let* contexts := gets threadContexts in
        let context := contexts !! threadId in
        let input :=
          VObj [(js "type", VStr (js "text")); (js "text", VStr text)]
          :: List.map (fun path =>
                         VObj [(js "type", VStr (js "file"));
                               (js "path", VStr path)])
                      (default [] attachments) in
        rpc (js "turn/start")
            (VObj [(js "threadId", VStr threadId);
                   (js "cwd", of_opt (tc_cwd <$> context));
                   (js "input", VArr input)])
            (KSendUserMessage call threadId) >>
        ret None
    end.

Definition sendUserMessage_afterRpc (call : nat) (threadId : jsstring)
  (r : settlement) : state -> state :=
  async call
    match r with
    | Rejected message => throw message
    | Fulfilled result =>
        match truthy_string (result ?> "turn" ?> "id") with
        | None => throw (js "turn/start did not return a turn id")
        | Some turnId =>
            modify (fun st =>
              set_turnToThread (<[turnId := threadId]> (turnToThread st)) st) >>
            ret (Some (VStr turnId))
        end
    end.

Definition cancel (call : nat) (targetId : jsstring) (st : state) : state :=
  await_ready (OpCancel call targetId) st.

Definition cancel_afterReady (call : nat) (targetId : jsstring)
  (failure : option jsstring) : state -> state :=
  async call
    match failure with
    | Some message => throw message
    | None =>
        try_catch
          (rpc (js "turn/cancel") (VObj [(js "turnId", VStr targetId)])
               (KCancel call) >>
           ret None)
          (ret (Some VUndef))
    end.

(** Both outcomes of the awaited call end the method normally. *)
Definition cancel_afterRpc (call : nat) (r : settlement) : state -> state :=
  async call
    match r with
    | Fulfilled _ => ret (Some VUndef)
    | Rejected _ => ret (Some VUndef)
    end.

Definition respondApproval (call : nat) (approvalId decision : jsstring)
  : state -> state :=
  async call
    (let* approvals := gets pendingApprovals in
     match approvals !! approvalId with
     | Some requestId =>
         send (VObj [(js "id", requestId);
                     (js "result",
                       VObj [(js "decision",
                               VStr (decision_string (mapDecision decision)))])]) >>
         modify (fun st =>
           set_pendingApprovals (delete approvalId (pendingApprovals st)) st) >>
         ret (Some VUndef)
     | None =>
         let* notifications := gets pendingNotificationApprovals in
         match notifications !! approvalId with
         | Some _ =>
             try_catch
               (rpc (js "approval/respond")
                    (VObj [(js "approvalId", VStr approvalId);
                           (js "decision",
                             VStr (decision_string (mapDecision decision)))])
                    (KRespondApproval call) >>
                ret None)
               (ret (Some VUndef))
         | None => ret (Some VUndef)
         end
     end).

Definition respondApproval_afterRpc (call : nat) (r : settlement)
  : state -> state :=
  async call
    match r with
    | Fulfilled _ => ret (Some VUndef)
    | Rejected _ => ret (Some VUndef)
    end.

(** ** The reactions of the transport, one at a time *)

Definition run_job (j : job) (now : clock) : state -> state :=
  match j with
  | JAfterReady (OpCreateThread call context) failure =>
      createThread_afterReady call context failure
  | JAfterReady (OpSendUserMessage call threadId text attachments) failure =>
      sendUserMessage_afterReady call threadId text attachments failure
  | JAfterReady (OpCancel call targetId) failure =>
      cancel_afterReady call targetId failure
  | JAfterRpc (KCreateThread call context) r =>
      createThread_afterRpc call context r now
  | JAfterRpc (KSendUserMessage call threadId) r =>
      sendUserMessage_afterRpc call threadId r
  | JAfterRpc (KCancel call) r => cancel_afterRpc call r
  | JAfterRpc (KRespondApproval call) r => respondApproval_afterRpc call r
  end.

Inductive input :=
| Line (parsed : option value)
| Exit (code : option Z) (signal : option jsstring)
| ProcError (message : jsstring)
| StdinClosed
| Job
| CreateThread (call : nat) (context : WorkspaceContext)
| SendUserMessage (call : nat) (threadId text : jsstring)
                  (attachments : option (list jsstring))
| Cancel (call : nat) (targetId : jsstring)
| RespondApproval (call : nat) (approvalId decision : jsstring).

(** One reaction.  An exception escaping a line handler leaves the state as
    it was when thrown. *)
Definition step (st : state) (i : input * clock) : state :=
  let '(i, now) := i in
  match i with
  | Line parsed => fst (handleLine parsed now st)
  | Exit code signal => on_exit code signal now st
  | ProcError message => on_error message st
  | StdinClosed => set_stdin_writable false st
  | Job =>
      match jobs st with
      | [] => st
      | j :: rest => run_job j now (set_jobs rest st)
      end
  | CreateThread call context => createThread call context st
  | SendUserMessage call threadId text attachments =>
      sendUserMessage call threadId text attachments st
  | Cancel call targetId => cancel call targetId st
  | RespondApproval call approvalId decision =>
      respondApproval call approvalId decision st
  end.

Definition run (st : state) (trace : list (input * clock)) : state :=
  fold_left step trace st.
(** * The host around the transport

    The transport factory, the agent manager's intake of transport events,
    the in-memory store it files them in, and the permission rules
    (apps/host).  Identifiers the source draws with [nanoid] are inputs
    here, as the clock is. *)

(** ** Transport factory *)

(** [process.env]: a variable that is not set reads [undefined]. *)
Definition Env : Type := string -> option jsstring.

Definition normalizeSandbox (value : option jsstring) : SandboxMode :=
  match value with
  | Some v =>
      if bool_decide (v = js "read-only") then read_only
      else if bool_decide (v = js "workspace-write") then workspace_write
      else if bool_decide (v = js "danger-full-access") then danger_full_access
      else workspace_write
  | None => workspace_write
  end.

(** What [createTransport] returns; the mock transport's scripted replies
    are not modelled, nor is [bin], the program the constructor spawns. *)
Inductive Transport :=
| MockTransport
| CodexAppServerTransport (st : state).

Definition env_is (env : Env) (name : string) (expected : jsstring) : bool :=
  match env name with
  | Some v => bool_decide (v = expected)
  | None => false
  end.

Definition createTransport (env : Env) : Transport :=
  let useMock :=
    env_is env "USE_MOCK_TRANSPORT" (js "1") ||
    env_is env "SIDEKICK_TRANSPORT" (js "mock") in
  if useMock then MockTransport
  else
    let sandbox := normalizeSandbox (env "CODEX_SANDBOX") in
    CodexAppServerTransport
      (constructor
         {| opt_model := Some (default (js "gpt-5.2-codex") (env "CODEX_MODEL"));
            opt_sandbox := Some sandbox;
            opt_approvalPolicy :=
              Some (default (js "on-request") (env "CODEX_APPROVAL_POLICY")) |}).

(** ** Timeline types *)

Inductive TimelineItemType :=
| tl_message | tl_tool_call | tl_command_output | tl_file_change
| tl_approval_request | tl_plan | tl_summary | tl_error.

(** The [type] string of the events the transport emits. *)
Definition type_string (t : EventType) : jsstring :=
  match t with
  | thread_started => js "thread.started"
  | turn_started => js "turn.started"
  | turn_completed => js "turn.completed"
  | item_started => js "item.started"
  | item_completed => js "item.completed"
  | item_delta => js "item.delta"
  | approval_request => js "approval.request"
  | error => js "error"
  end.

(** [mapEventToTimelineType], on the event's [type] and [payload]; a
    payload of another shape has no [kind] and no [item]. *)
Definition mapEventToTimelineType (type : jsstring) (payload : Payload)
  : TimelineItemType :=
  if startsWith type (js "assistant") then tl_message
  else if startsWith type (js "plan") then tl_plan
  else if startsWith type (js "tool") then tl_tool_call
  else if startsWith type (js "command") then tl_command_output
  else if startsWith type (js "file") then tl_file_change
  else if bool_decide (type = js "item.delta") then
    match payload with
    | PDelta _ _ commandOutput _ _ => tl_command_output
    | PDelta _ _ agentMessage _ _ => tl_message
    | _ => tl_summary
    end
  else if bool_decide (type = js "item.started")
          || bool_decide (type = js "item.completed") then
    let itemType :=
      match payload with PItem _ item => item ?> "type" | _ => VUndef end in
    if is_str itemType (js "commandExecution") then tl_command_output
    else if is_str itemType (js "fileChange") then tl_file_change
    else if is_str itemType (js "agentMessage") then tl_message
    else if is_str itemType (js "reasoning") then tl_summary
    else tl_tool_call
  else if startsWith type (js "thread") || startsWith type (js "turn") then
    tl_tool_call
  else if bool_decide (type = js "approval.request") then tl_approval_request
  else if bool_decide (type = js "session.summary") then tl_summary
  else tl_error.

(** ** The in-memory store *)

Inductive ApprovalStatus := pending | approved | denied | expired.

(** What a timeline item holds: a transport event, or the user's message. *)
Inductive TimelinePayload :=
| EventPayload (event : TransportEvent)
| UserMessage (text : jsstring).

Record TimelineItem := {
  ti_id : jsstring;
  ti_sessionId : jsstring;
  ti_turnId : option jsstring;
  ti_type : TimelineItemType;
  ti_payload : TimelinePayload;
  ti_createdAt : jsstring;
  ti_sequence : Z
}.

(** The argument of [addTimelineItem]. *)
Record TimelineInput := {
  in_sessionId : jsstring;
  in_turnId : option jsstring;
  in_type : TimelineItemType;
  in_payload : TimelinePayload;
  in_createdAt : option jsstring
}.

(** A stored approval: the request, its status and when it was resolved. *)
Record StoredApproval := {
  sa_request : ApprovalRequest;
  sa_status : ApprovalStatus;
  sa_resolvedAt : option jsstring
}.

(** The fields of [MemoryStore] the event intake touches. *)
Record MemoryStore := {
  timeline : gmap jsstring (list TimelineItem);
  approvals : gmap jsstring StoredApproval;
  sequences : gmap jsstring Z
}.

Definition emptyStore : MemoryStore :=
  {| timeline := ∅; approvals := ∅; sequences := ∅ |}.

Definition listTimelineItems (sessionId : jsstring) (store : MemoryStore)
  : list TimelineItem :=
  default [] (timeline store !! sessionId).

(** [nanoid8] is the draw of [nanoid(8)], [now] the clock's answer. *)
Definition addTimelineItem (nanoid8 now : jsstring) (item : TimelineInput)
  (store : MemoryStore) : MemoryStore * TimelineItem :=
  let createdAt := default now (in_createdAt item) in
  let nextSequence :=
    (default 0 (sequences store !! in_sessionId item) + 1)%Z in
  let sequences' := <[in_sessionId item := nextSequence]> (sequences store) in
  let timelineItem :=
    {| ti_id := js "evt_" ++ nanoid8;
       ti_sessionId := in_sessionId item;
       ti_turnId := in_turnId item;
       ti_type := in_type item;
       ti_payload := in_payload item;
       ti_createdAt := createdAt;
       ti_sequence := nextSequence |} in
  let items := default [] (timeline store !! in_sessionId item) in
  ({| timeline := <[in_sessionId item := items ++ [timelineItem]]> (timeline store);
      approvals := approvals store;
      sequences := sequences' |},
   timelineItem).

Definition createApproval (request : StoredApproval) (store : MemoryStore)
  : MemoryStore :=
  {| timeline := timeline store;
     approvals := <[ap_id (sa_request request) := request]> (approvals store);
     sequences := sequences store |}.



(** ** The agent manager's intake *)

(** [handleTransportEvent]; [ids] are the two [nanoid(8)] draws it may
    make.  The listeners it forwards the event to are left out.  An
    approval event carries an approval as payload and a turn id. *)
Definition handleTransportEvent (event : TransportEvent)
  (ids : jsstring * jsstring) (now : jsstring) (store : MemoryStore)
  : MemoryStore :=
  let store :=
    fst (addTimelineItem (fst ids) now
           {| in_sessionId := ev_sessionId event;
              in_turnId := ev_turnId event;
              in_type :=
                mapEventToTimelineType (type_string (ev_type event))
                                       (ev_payload event);
              in_payload := EventPayload event;
              in_createdAt := None |} store) in
  match ev_type event, ev_payload event with
  | approval_request, PApproval a =>
      createApproval
        {| sa_request :=
             {| ap_id := if bool_decide (ap_id a = [])
                         then js "approval_" ++ snd ids else ap_id a;
                ap_sessionId := ev_sessionId event;
                ap_turnId := default [] (ev_turnId event);
                ap_kind := ap_kind a;
                ap_title := ap_title a;
                ap_details := ap_details a;
                ap_createdAt := ap_createdAt a;
                ap_codexApprovalId := ap_codexApprovalId a;
                ap_respond := ap_respond a |};
           sa_status := pending;
           sa_resolvedAt := None |} store
  | _, _ => store
  end.


(** ** Permission rules *)

Inductive RuleDecision := allow | ask | deny.

Record PermissionRule := {
  rule_id : jsstring;
  pattern : jsstring;
  decision : RuleDecision
}.

Record WorkspaceSettings := {
  allowNetwork : bool;
  allowOutsideRoot : bool;
  preferredShell : option jsstring;
  commandRules : list PermissionRule;
  pathRules : list PermissionRule;
  toolRules : list PermissionRule
}.

(** [rule(pattern, decision)] with the [nanoid(6)] it draws. *)
Definition rule (nanoid6 : jsstring) (pattern : string)
  (decision : RuleDecision) : PermissionRule :=
  {| rule_id := js "rule_" ++ nanoid6;
     pattern := js pattern;
     decision := decision |}.

(** [nanoid k] is the k-th draw. *)
Definition defaultWorkspaceSettings (nanoid : nat -> jsstring)
  : WorkspaceSettings :=
  {| allowNetwork := false;
     allowOutsideRoot := false;
     preferredShell := None;
     commandRules :=
       [rule (nanoid 0%nat) "rm -rf" deny;
        rule (nanoid 1%nat) "sudo" deny;
        rule (nanoid 2%nat) "chmod 777" deny;
        rule (nanoid 3%nat) "dd " deny;
        rule (nanoid 4%nat) "mkfs" deny;
        rule (nanoid 5%nat) "shutdown" deny;
        rule (nanoid 6%nat) "reboot" deny];
     pathRules :=
       [rule (nanoid 7%nat) "**/.env" deny;
        rule (nanoid 8%nat) "**/*secret*" deny;
        rule (nanoid 9%nat) "**/id_rsa*" deny;
        rule (nanoid 10%nat) "**/*.pem" deny;
        rule (nanoid 11%nat) "**/keychain*" deny];
     toolRules := [] |}.

Definition evaluateRules (rules : list PermissionRule) (target : jsstring)
  : RuleDecision * option PermissionRule :=
  match List.find (fun ruleItem => includes target (pattern ruleItem)) rules with
  | None => (ask, None)
  | Some matched => (decision matched, Some matched)
  end.


(** * Statement-side definitions

    What the properties below are stated with: readings of the
    specification's words, views of events and states, and the concrete
    transports and messages the examples run on. *)

(** An object literal with ASCII keys. *)
Definition obj (fields : list (string * value)) : value :=
  VObj (List.map (fun f => (js (fst f), snd f)) fields).

Definition no_options : CodexTransportOptions :=
  {| opt_model := None; opt_sandbox := None; opt_approvalPolicy := None |}.

Definition noon : clock :=
  {| iso := js "2025-01-01T12:00:00.000Z"; millis := 1735732800000 |}.

(** ** Session resolution *)







(** ** Chunks *)



(** ** Low-level execution events *)

Definition exec_begin : jsstring := js "codex/event/exec_command_begin".
Definition exec_output_delta : jsstring :=
  js "codex/event/exec_command_output_delta".
Definition exec_end : jsstring := js "codex/event/exec_command_end".

(** [params?.msg ?? {}]. *)
Definition codex_msg (params : value) : value := params ?> "msg" ?? VObj [].

(** The identity a low-level notification resolves to: the thread and turn
    [handleCodexEvent] computes at its head, when neither is empty. *)
Definition codex_identity (params : value) : option (jsstring * jsstring) :=
  let msg := codex_msg params in
  match opt_or (resolveThreadId params) (resolveThreadId msg) with
  | None => None
  | Some t =>
      let u := match opt_or (resolveTurnId params) (resolveTurnId msg) with
               | Some u => u
               | None => toString (params ?> "id" ?? VStr [])
               end in
      if bool_decide (t = []) || bool_decide (u = []) then None else Some (t, u)
  end.

(** [typeof msg.chunk === "string" ? msg.chunk : ""]. *)
Definition chunk_of (params : value) : jsstring :=
  match codex_msg params ?> "chunk" with VStr s => s | _ => [] end.


(** The event of an output chunk attributed to thread [t] and turn [u]. *)
Definition delta_event (st : state) (params : value) (now : clock)
  (t u : jsstring) : TransportEvent :=
  {| ev_type := item_delta;
     ev_sessionId := resolveSessionId st (Some t) (Some u);
     ev_turnId := Some u;
     ev_createdAt := iso now;
     ev_payload := PDelta t (VStr (callId_of (codex_msg params))) commandOutput
                          (decodeChunk (chunk_of params)) VUndef |}.

(** The event names thread [t] and turn [u], under the session they
    resolve to in [st]. *)
Definition carries (st : state) (t u : jsstring) (e : TransportEvent) : Prop :=
  payload_threadId (ev_payload e) = Some t ∧ ev_turnId e = Some u ∧
  ev_sessionId e = resolveSessionId st (Some t) (Some u).

(** The execution context of call [c] holds thread [t] and turn [u]. *)
Definition captured (st : state) (c t u : jsstring) : Prop :=
  ∃ context, commandExecutions st !! c = Some context ∧
             ce_threadId context = Some t ∧ ce_turnId context = Some u.

(** An output-delta notification that yields an event: it is addressed and
    its chunk decodes to something. *)
Definition emits_delta (params : value) : bool :=
  bool_decide (is_Some (codex_identity params)) &&
  negb (bool_decide (decodeChunk (chunk_of params) = [])).

(** A run of output-delta notifications. *)
Definition run_deltas (st : state) (later : list (value * clock)) : state :=
  fold_left (fun s p => handleCodexEvent exec_output_delta (fst p) (snd p) s)
            later st.

Definition begin_params : value :=
  obj [("threadId", VStr (js "th-1")); ("turnId", VStr (js "tu-1"));
       ("msg", obj [("call_id", VStr (js "call-1"));
                    ("command", VStr (js "ls"))])].

Definition delta_without_ids : value :=
  obj [("msg", obj [("call_id", VStr (js "call-1"));
                    ("chunk", VStr (js "hello!"))])].

Definition delta_other_ids : value :=
  obj [("threadId", VStr (js "th-9")); ("id", VStr (js "sub-3"));
       ("msg", obj [("call_id", VStr (js "call-1"));
                    ("chunk", VStr (js "aGk="))])].

Definition end_other_ids : value :=
  obj [("conversationId", VStr (js "th-9")); ("id", VNum 4);
       ("msg", obj [("call_id", VStr (js "call-1")); ("exit_code", VNum 0)])].

Definition delta_hi : value :=
  obj [("conversationId", VStr (js "th-1")); ("id", VStr (js "7"));
       ("msg", obj [("call_id", VStr (js "call-1"));
                    ("chunk", VStr (js "aGk="))])].

(** ** Messages and transports of the scenarios *)

Definition initialized_message : value :=
  VObj [(js "method", VStr (js "initialized")); (js "params", VObj [])].

Definition thread_start_request (cfg : Config) (context : WorkspaceContext)
  (id : Z) : value :=
  VObj [(js "method", VStr (js "thread/start")); (js "id", VNum id);
        (js "params",
          VObj [(js "model", VStr (model cfg));
                (js "cwd", VStr (workspaceRoot context));
                (js "approvalPolicy", VStr (approvalPolicy cfg));
                (js "sandbox", VStr (sandbox_string (sandbox cfg)))])].

Definition approval_respond_request (id : Z) (approvalId : jsstring)
  (d : WireDecision) : value :=
  VObj [(js "method", VStr (js "approval/respond")); (js "id", VNum id);
        (js "params",
          VObj [(js "approvalId", VStr approvalId);
                (js "decision", VStr (decision_string d))])].

Definition decision_response (requestId : value) (d : WireDecision) : value :=
  VObj [(js "id", requestId);
        (js "result", VObj [(js "decision", VStr (decision_string d))])].

(** The peer's answer to [initialize]. *)
Definition initialize_result : value :=
  obj [("id", VNum 1); ("result", obj [("userAgent", obj [])])].

Definition initialize_error : value :=
  obj [("id", VNum 1);
       ("error", obj [("message", VStr (js "unsupported client"))])].

(** A transport whose handshake has completed. *)
Definition ready_transport : state :=
  run (constructor no_options) [(Line (Some initialize_result), noon)].

(** A transport whose handshake failed. *)
Definition failed_handshake : state :=
  run (constructor no_options) [(Line (Some initialize_error), noon)].

Definition workspace : WorkspaceContext :=
  {| workspaceRoot := js "/work"; workspaceName := None;
     systemPrompt := None; wc_sessionId := Some (js "session-1") |}.

Definition approval_notification : value :=
  obj [("method", VStr (js "item/commandExecution/requestApproval"));
       ("params", obj [("approvalId", VStr (js "appr-1"));
                       ("threadId", VStr (js "th-1"));
                       ("turnId", VStr (js "tu-1"));
                       ("command", VStr (js "rm -rf /tmp/x"))])].

(** A ready transport holding the notification-backed ticket "appr-1". *)
Definition with_notification_ticket : state :=
  run ready_transport [(Line (Some approval_notification), noon)].

(** The approval request of the specification's scenario, as an RPC call
    with the given id. *)
Definition approval_call (id : Z) : value :=
  obj [("method", VStr (js "item/commandExecution/requestApproval"));
       ("id", VNum id);
       ("params", obj [("command", VStr (js "rm -rf /tmp/x"))])].

(** A ready transport holding the request-backed ticket "7". *)
Definition with_request_ticket : state :=
  run ready_transport [(Line (Some (approval_call 7)), noon)].


Definition generated_approvalId (now : clock) (st : state) : jsstring :=
  js "approval_" ++ js (pretty (millis now)) ++ js "_" ++ js (pretty (nextId st)).

(** ** Peer loss *)

Definition exit_event (message : jsstring) (now : clock) : TransportEvent :=
  {| ev_type := error;
     ev_sessionId := js "unknown";
     ev_turnId := Some (js "unknown");
     ev_createdAt := iso now;
     ev_payload := PError message true |}.


(** A ready transport with [createThread] and [sendUserMessage] awaiting
    their calls. *)
Definition two_calls_pending : state :=
  run ready_transport
      [(CreateThread 0 workspace, noon); (Job, noon);
       (SendUserMessage 1 (js "th-1") (js "hello") None, noon); (Job, noon)].

(** ** Thread announcements *)

Definition is_thread_started (t : jsstring) (e : TransportEvent) : bool :=
  match ev_type e, ev_payload e with
  | thread_started, PThread t' => bool_decide (t = t')
  | _, _ => false
  end.

(** How many [thread.started] events name thread [t]. *)
Definition started_count (t : jsstring) (events : list TransportEvent) : nat :=
  length (List.filter (is_thread_started t) events).

(** The bookkeeping of [thread.started]: a thread is announced exactly when
    it is in the seen set, a thread with a context is in the seen set, and
    the threads of [known] are in it. *)
Definition seen_inv (known : gset jsstring) (st : state) : Prop :=
  (∀ t, started_count t (emitted st) =
        if bool_decide (t ∈ seenThreads st) then 1%nat else 0%nat) ∧
  (∀ t, is_Some (threadContexts st !! t) → t ∈ seenThreads st) ∧
  known ⊆ seenThreads st.

Definition thread_started_notification (t : jsstring) : value :=
  obj [("method", VStr (js "thread/started"));
       ("params", obj [("thread", obj [("id", VStr t)])])].

Definition thread_start_result (id : Z) (t : jsstring) : value :=
  obj [("id", VNum id); ("result", obj [("thread", obj [("id", VStr t)])])].

(** The peer announces the thread before the local [createThread]
    resumes, and once more after. *)
Definition peer_first : list (input * clock) :=
  [(Line (Some initialize_result), noon);
   (CreateThread 0 workspace, noon); (Job, noon);
   (Line (Some (thread_start_result 2 (js "th-1"))), noon);
   (Line (Some (thread_started_notification (js "th-1"))), noon)].

Definition local_first : list (input * clock) :=
  [(Line (Some initialize_result), noon);
   (CreateThread 0 workspace, noon); (Job, noon);
   (Line (Some (thread_start_result 2 (js "th-1"))), noon)].

(** ** Addressed events *)









(** ** Answers to the peer *)


(** ** Call identifiers *)

(** The id of a call written to the peer: a message with a method and a
    numeric id.  Responses and the [initialized] notification have none. *)
Definition call_id (m : value) : option Z :=
  if truthy (m ?> "method") then
    match m ?> "id" with VNum n => Some n | _ => None end
  else None.

Definition call_ids (out : list value) : list Z := omap call_id out.

Definition pending_ids (st : state) : list Z := (pendingRequests st).*1.

(** Ids are handed out once: the calls written so far carry pairwise
    distinct ids below [nextId], the pending table holds distinct ids of
    calls that were written, and the handshake's id is not among them. *)
Definition ids_inv (st : state) : Prop :=
  (1 ≤ nextId st)%Z ∧
  NoDup (call_ids (outbox st)) ∧
  Forall (fun n => (1 ≤ n < nextId st)%Z) (call_ids (outbox st)) ∧
  NoDup (pending_ids st) ∧
  pending_ids st ⊆ call_ids (outbox st) ∧
  (∀ n, initRequestId st = Some n →
        n ∈ call_ids (outbox st) ∧ n ∉ pending_ids st).

(** The call [rpc] writes. *)
Definition rpc_request (method : jsstring) (id : Z) (params : value) : value :=
  VObj [(js "method", VStr method); (js "id", VNum id); (js "params", params)].

(** The state [rpc] leaves when the write succeeds. *)
Definition rpc_sent (method : jsstring) (params : value) (k : cont) (st : state)
  : state :=
  set_pendingRequests
    (table_set (nextId st) {| pr_cont := k; pr_method := method |}
               (pendingRequests st))
    (set_outbox (outbox st ++ [rpc_request method (nextId st) params])
                (set_nextId (nextId st + 1)%Z st)).

Definition not_writable : jsstring := js "codex app-server stdin is not writable".

(** ** Responses *)

(** A response line: it has an id and no (truthy) method. *)
Definition is_response (msg : value) : Prop :=
  msg ≠ VNull ∧ truthy (msg ?> "method") = false ∧
  is_undefined (msg ?> "id") = false.

(** How a response settles the call awaiting it. *)
Definition response_settlement (msg : value) (method : jsstring) : settlement :=
  if truthy (msg ?> "error") then
    Rejected (toString (msg ?> "error" ?> "message"
                        ?? VStr (js "RPC error: " ++ method)))
  else Fulfilled (msg ?> "result").

Definition result_response (id : Z) (result : value) : value :=
  VObj [(js "id", VNum id); (js "result", result)].

Definition error_response (id : Z) (err : value) : value :=
  VObj [(js "id", VNum id); (js "error", err)].

Definition thread_started_event (now : clock) (session t : jsstring)
  : TransportEvent :=
  {| ev_type := thread_started;
     ev_sessionId := session;
     ev_turnId := None;
     ev_createdAt := iso now;
     ev_payload := PThread t |}.

(** The input parts [sendUserMessage] builds: the text, then one part per
    attachment. *)
Definition text_part (text : jsstring) : value :=
  VObj [(js "type", VStr (js "text")); (js "text", VStr text)].

Definition file_part (path : jsstring) : value :=
  VObj [(js "type", VStr (js "file")); (js "path", VStr path)].

Definition turn_start_request (st : state) (threadId text : jsstring)
  (attachments : option (list jsstring)) : value :=
  rpc_request (js "turn/start") (nextId st)
    (VObj [(js "threadId", VStr threadId);
           (js "cwd", of_opt (tc_cwd <$> threadContexts st !! threadId));
           (js "input",
             VArr (text_part text :: (file_part <$> default [] attachments)))]).



(** ** Approvals *)


(** ** What a reaction may change *)

(** The three logs only grow at the end. *)
Definition extends (st st' : state) : Prop :=
  emitted st `prefix_of` emitted st' ∧
  outbox st `prefix_of` outbox st' ∧
  settled st `prefix_of` settled st'.

(** The identity tables keep their keys, and the id counter does not go
    back. *)
Definition remembers (st st' : state) : Prop :=
  (∀ t, is_Some (threadContexts st !! t) → is_Some (threadContexts st' !! t)) ∧
  (∀ u, is_Some (turnToThread st !! u) → is_Some (turnToThread st' !! u)) ∧
  seenThreads st ⊆ seenThreads st' ∧
  (nextId st ≤ nextId st')%Z ∧
  config st' = config st.

(** Readiness settles once, and a closed stdin stays closed. *)
Definition settles_once (st st' : state) : Prop :=
  ((∀ ws, ready st ≠ ReadyPending ws) → ready st' = ready st) ∧
  (stdin_writable st = false →
   stdin_writable st' = false ∧ outbox st' = outbox st).

(** All of it, for one reaction. *)
Definition evolves (st st' : state) : Prop :=
  extends st st' ∧ remembers st st' ∧ settles_once st st'.

(** The state without the text buffered per agent message. *)
Definition without_buffers (st : state) : state := set_agentMessageBuffers ∅ st.

Definition is_initialize (m : value) : bool :=
  is_str (m ?> "method") (js "initialize").

(** ** Streaming text *)

Definition notification (method : string) (params : value) : value :=
  obj [("method", VStr (js method)); ("params", params)].

Definition agent_delta (t u i d : jsstring) : value :=
  notification "item/agentMessage/delta"
    (obj [("threadId", VStr t); ("turnId", VStr u); ("itemId", VStr i);
          ("delta", VStr d)]).

Definition agent_completed (t u i : jsstring) : value :=
  notification "item/completed"
    (obj [("threadId", VStr t); ("turnId", VStr u);
          ("item", obj [("type", VStr (js "agentMessage")); ("id", VStr i)])]).

Definition agent_delta_event (st : state) (now : clock) (t u i d : jsstring)
  : TransportEvent :=
  {| ev_type := item_delta;
     ev_sessionId := resolveSessionId st (Some t) None;
     ev_turnId := Some u;
     ev_createdAt := iso now;
     ev_payload := PDelta t (VStr i) agentMessage d VUndef |}.

(** ** Handshake *)

Definition initialize_request : value :=
  VObj [(js "method", VStr (js "initialize"));
        (js "id", VNum 1);
        (js "params",
          VObj [(js "clientInfo",
                  VObj [(js "name", VStr (js "sidekick"));
                        (js "title", VStr (js "Sidekick"));
                        (js "version", VStr (js "0.1.0"))])])].

(** The handshake was started once, first of all. *)
Definition handshake_inv (st : state) : Prop :=
  ∃ rest, outbox st = initialize_request :: rest ∧
          Forall (fun m => is_initialize m = false) rest.

(** ** The host *)

(** The three sandbox modes the peer knows. *)
Definition sandbox_valid (v : jsstring) : bool :=
  bool_decide (v = js "read-only") || bool_decide (v = js "workspace-write")
  || bool_decide (v = js "danger-full-access").

(** [pattern] occurs in [target]. *)
Definition occurs (pattern target : jsstring) : Prop :=
  ∃ a b, target = a ++ pattern ++ b.

(** An event as the agent manager receives it, with the identifiers and the
    time its handling draws. *)
Definition arrival : Type := TransportEvent * (jsstring * jsstring) * jsstring.

Definition handleTransportEvents (arrivals : list arrival) (store : MemoryStore)
  : MemoryStore :=
  fold_left (fun s (x : arrival) =>
               handleTransportEvent (fst (fst x)) (snd (fst x)) (snd x) s)
            arrivals store.

(** The events among [arrivals] that belong to a session. *)
Definition events_of (sessionId : jsstring) (arrivals : list arrival)
  : list TransportEvent :=
  List.filter (fun e => bool_decide (ev_sessionId e = sessionId))
              (List.map (fun x : arrival => fst (fst x)) arrivals).

(** Sequence numbers count the items of each session from 1. *)
Definition store_inv (store : MemoryStore) : Prop :=
  ∀ s, ti_sequence <$> listTimelineItems s store
         = Z.of_nat <$> seq 1 (length (listTimelineItems s store)) ∧
       default 0%Z (sequences store !! s)
         = Z.of_nat (length (listTimelineItems s store)).


(** * Properties *)

Ltac js_neq := let H := fresh in intros H; vm_compute in H; discriminate H.

(** ** Session id resolution *)

Lemma resolveSessionId_ext st st' threadId turnId :
  threadContexts st' = threadContexts st → turnToThread st' = turnToThread st →
  resolveSessionId st' threadId turnId = resolveSessionId st threadId turnId.
Proof.
  intros Hc Ht. unfold resolveSessionId, session_of_thread. by rewrite Hc, Ht.
Qed.





(** ** Chunk decoding *)














(** ** Low-level execution events *)

Lemma handleCodexEvent_dropped method params now st :
  codex_identity params = None → handleCodexEvent method params now st = st.
Proof.
  unfold codex_identity, handleCodexEvent, codex_msg.
  destruct (opt_or (resolveThreadId params) _) as [t|]; [|done].
  destruct (_ || _); [done | discriminate].
Qed.

Lemma handleCodexEvent_output_delta params now st t u :
  codex_identity params = Some (t, u) →
  handleCodexEvent exec_output_delta params now st =
    let context := commandExecutions st !! callId_of (codex_msg params) in
    if bool_decide (decodeChunk (chunk_of params) = []) then st
    else emitEvent (delta_event st params now
                      (default t (context ≫= ce_threadId))
                      (default u (context ≫= ce_turnId))) st.
Proof.
  unfold codex_identity, handleCodexEvent, chunk_of, delta_event, codex_msg.
  destruct (opt_or (resolveThreadId params) _) as [t'|]; [|done].
  destruct (_ || _) eqn:Hg; [done|]. intros [= <- <-].
  rewrite (bool_decide_eq_false_2 (exec_output_delta = _)) by js_neq.
  rewrite (bool_decide_eq_true_2 (exec_output_delta = _)) by done.
  reflexivity.
Qed.



(** A word of four letters is base64-shaped too and is decoded. *)
Example decodeChunk_word : decodeChunk (js "test") ≠ js "test".
Proof. vm_compute. discriminate. Qed.

Lemma handleCodexEvent_frame method params now st :
  threadContexts (handleCodexEvent method params now st) = threadContexts st ∧
  turnToThread (handleCodexEvent method params now st) = turnToThread st.
Proof. unfold handleCodexEvent. repeat case_match; done. Qed.

Lemma same_sessions_trans st1 st2 st3 :
  (threadContexts st2 = threadContexts st1 ∧ turnToThread st2 = turnToThread st1) →
  (threadContexts st3 = threadContexts st2 ∧ turnToThread st3 = turnToThread st2) →
  threadContexts st3 = threadContexts st1 ∧ turnToThread st3 = turnToThread st1.
Proof. intros [-> ->] [-> ->]. done. Qed.

Lemma run_deltas_frame later : ∀ st,
  threadContexts (run_deltas st later) = threadContexts st ∧
  turnToThread (run_deltas st later) = turnToThread st.
Proof.
  induction later as [|[p now] later IH]; intros st; [done|].
  change (run_deltas st ((p, now) :: later))
    with (run_deltas (handleCodexEvent exec_output_delta p now st) later).
  eapply same_sessions_trans; [apply handleCodexEvent_frame | apply IH].
Qed.

Lemma exec_begin_captures params now st t u :
  codex_identity params = Some (t, u) →
  let st' := handleCodexEvent exec_begin params now st in
  captured st' (callId_of (codex_msg params)) t u ∧
  ∃ e, emitted st' = emitted st ++ [e] ∧ ev_type e = item_started ∧
       carries st t u e.
Proof.
  unfold codex_identity, handleCodexEvent, codex_msg.
  destruct (opt_or (resolveThreadId params) _) as [t'|]; [|done].
  destruct (_ || _) eqn:Hg; [done|]. intros [= <- <-].
  rewrite (bool_decide_eq_true_2 (exec_begin = _)) by done.
  simpl. split.
  - eexists. split; [apply lookup_insert_eq|]. done.
  - eexists. split; [reflexivity|]. split; [done|].
    unfold carries. simpl. split_and!; try done.
Qed.

Lemma exec_delta_keeps params now st c t u :
  captured st c t u → callId_of (codex_msg params) = c →
  let st' := handleCodexEvent exec_output_delta params now st in
  captured st' c t u ∧
  ∃ events, emitted st' = emitted st ++ events ∧
            Forall (fun e => ev_type e = item_delta ∧ carries st t u e) events ∧
            length events = if emits_delta params then 1%nat else 0%nat.
Proof.
  intros (context & Hl & Ht & Hu) Hc. unfold emits_delta.
  destruct (codex_identity params) as [[t' u']|] eqn:Hid.
  - rewrite (handleCodexEvent_output_delta _ _ _ _ _ Hid). simpl.
    rewrite Hc, Hl. simpl. rewrite Ht, Hu. simpl.
    case_bool_decide; simpl.
    + split; [by exists context|]. exists []. by rewrite app_nil_r.
    + split; [by exists context|]. eexists [_]. split; [reflexivity|].
      split; [|done]. repeat constructor.
  - rewrite (handleCodexEvent_dropped _ _ _ _ Hid). simpl.
    split; [by exists context|]. exists []. by rewrite app_nil_r.
Qed.

Lemma exec_end_uses params now st c t u :
  captured st c t u → callId_of (codex_msg params) = c →
  let st' := handleCodexEvent exec_end params now st in
  ∃ events, emitted st' = emitted st ++ events ∧
            Forall (fun e => ev_type e = item_completed ∧ carries st t u e)
                   events ∧
            length events = (match codex_identity params with
                             | Some _ => 1%nat
                             | None => 0%nat
                             end) ∧
            (is_Some (codex_identity params) →
             commandExecutions st' !! c = None).
Proof.
  intros (context & Hl & Ht & Hu) Hc.
  destruct (codex_identity params) as [[t' u']|] eqn:Hid.
  - revert Hid. unfold codex_identity, handleCodexEvent. fold (codex_msg params).
    destruct (opt_or (resolveThreadId params) _) as [t''|]; [|done].
    destruct (_ || _) eqn:Hg; [done|]. intros [= <- <-].
    rewrite (bool_decide_eq_false_2 (exec_end = _)) by js_neq.
    rewrite (bool_decide_eq_false_2 (exec_end = _)) by js_neq.
    rewrite (bool_decide_eq_true_2 (exec_end = _)) by done.
    rewrite Hc, Hl. simpl. rewrite Ht, Hu. simpl.
    eexists [_]. split; [reflexivity|]. split; [|split; [done|]].
    + repeat constructor.
    + intros _. apply lookup_delete_eq.
  - rewrite (handleCodexEvent_dropped _ _ _ _ Hid). simpl.
    exists []. rewrite app_nil_r. split_and!; try done.
Qed.

Lemma run_deltas_keep later : ∀ st c t u,
  captured st c t u →
  Forall (fun p => callId_of (codex_msg (fst p)) = c) later →
  captured (run_deltas st later) c t u ∧
  ∃ events, emitted (run_deltas st later) = emitted st ++ events ∧
            Forall (fun e => ev_type e = item_delta ∧ carries st t u e) events ∧
            length events =
              length (List.filter (fun p => emits_delta (fst p)) later).
Proof.
  induction later as [|[p now] later IH]; intros st c t u Hcap Hall; simpl.
  - split; [done|]. exists []. by rewrite app_nil_r.
  - apply Forall_cons in Hall as [Hp Hrest]. simpl in Hp.
    change (run_deltas st ((p, now) :: later))
      with (run_deltas (handleCodexEvent exec_output_delta p now st) later).
    destruct (exec_delta_keeps p now st _ t u Hcap Hp)
      as (Hcap1 & ev1 & He1 & Hf1 & Hn1).
    destruct (IH _ _ t u Hcap1 Hrest) as (Hcap2 & ev2 & He2 & Hf2 & Hn2).
    split; [exact Hcap2|]. exists (ev1 ++ ev2). split_and!.
    + rewrite He2, He1. by rewrite app_assoc.
    + apply Forall_app. split; [exact Hf1|].
      eapply Forall_impl; [exact Hf2|]. intros e [Hty (Hp1 & Hp2 & Hs)].
      split; [done|]. split_and!; try done. rewrite Hs.
      destruct (handleCodexEvent_frame exec_output_delta p now st) as [Hc' Ht'].
      by apply resolveSessionId_ext.
    + rewrite length_app, Hn1, Hn2. destruct (emits_delta p); simpl; lia.
Qed.

(** C3, as stated, fails: after a begin that captured thread "th-1" and
    turn "tu-1" for call "call-1", an output-delta for that call which omits
    the thread and turn fields emits no event at all. *)
Lemma exec_delta_without_ids_dropped :
  ¬ (∀ st p0 now0 p now t u,
       codex_identity p0 = Some (t, u) →
       callId_of (codex_msg p) = callId_of (codex_msg p0) →
       decodeChunk (chunk_of p) ≠ [] →
       let st1 := handleCodexEvent exec_begin p0 now0 st in
       ∃ e, emitted (handleCodexEvent exec_output_delta p now st1)
            = emitted st1 ++ [e] ∧
            payload_threadId (ev_payload e) = Some t ∧ ev_turnId e = Some u).
Proof.
  intros H.
  destruct (H (constructor no_options) begin_params noon delta_without_ids noon
              (js "th-1") (js "tu-1")) as (e & He & _).
  - vm_compute. reflexivity.
  - vm_compute. reflexivity.
  - vm_compute. discriminate.
  - vm_compute in He. discriminate He.
Qed.

(** C3, amended: after a begin that resolved thread [t] and turn [u], the
    events emitted for the output-delta and end notifications of the same
    call carry [t] and [u] whatever thread and turn those notifications
    name; each addressed output-delta with a non-empty chunk and an
    addressed end emit one event, and a notification from which no thread
    or turn resolves emits none. *)
Theorem exec_events_keep_begin_identity st p0 now0 later pend nowe t u :
  codex_identity p0 = Some (t, u) →
  Forall (fun p => callId_of (codex_msg (fst p)) = callId_of (codex_msg p0))
         later →
  callId_of (codex_msg pend) = callId_of (codex_msg p0) →
  let st1 := handleCodexEvent exec_begin p0 now0 st in
  let st2 := run_deltas st1 later in
  let st3 := handleCodexEvent exec_end pend nowe st2 in
  ∃ deltas ends,
    emitted st3 = emitted st1 ++ deltas ++ ends ∧
    Forall (fun e => ev_type e = item_delta ∧ carries st t u e) deltas ∧
    Forall (fun e => ev_type e = item_completed ∧ carries st t u e) ends ∧
    length deltas = length (List.filter (fun p => emits_delta (fst p)) later) ∧
    length ends = match codex_identity pend with
                  | Some _ => 1%nat
                  | None => 0%nat
                  end.
Proof.
  intros Hid Hlater Hend st1 st2 st3.
  destruct (exec_begin_captures p0 now0 st t u Hid) as (Hcap1 & _).
  fold st1 in Hcap1.
  destruct (run_deltas_keep later st1 _ t u Hcap1 Hlater)
    as (Hcap2 & deltas & He2 & Hf2 & Hn2).
  fold st2 in Hcap2, He2.
  destruct (exec_end_uses pend nowe st2 _ t u Hcap2 Hend)
    as (ends & He3 & Hf3 & Hn3 & _).
  fold st3 in He3.
  pose proof (handleCodexEvent_frame exec_begin p0 now0 st) as Hs1.
  fold st1 in Hs1.
  pose proof (same_sessions_trans _ _ _ Hs1 (run_deltas_frame later st1)) as Hs2.
  exists deltas, ends. split_and!.
  - rewrite He3, He2. by rewrite app_assoc.
  - eapply Forall_impl; [exact Hf2|]. intros e [Hty (H1 & H2 & H3)].
    split; [done|]. split_and!; try done. rewrite H3.
    apply resolveSessionId_ext; apply Hs1.
  - eapply Forall_impl; [exact Hf3|]. intros e [Hty (H1 & H2 & H3)].
    split; [done|]. split_and!; try done. rewrite H3.
    apply resolveSessionId_ext; apply Hs2.
  - exact Hn2.
  - exact Hn3.
Qed.

Lemma exec_events_keep_begin_identity_witness :
  ∃ deltas ends,
    emitted (handleCodexEvent exec_end end_other_ids noon
               (run_deltas
                  (handleCodexEvent exec_begin begin_params noon
                     (constructor no_options))
                  [(delta_other_ids, noon); (delta_without_ids, noon)]))
    = emitted (handleCodexEvent exec_begin begin_params noon
                 (constructor no_options))
        ++ deltas ++ ends ∧
    Forall (fun e => ev_type e = item_delta ∧
                     carries (constructor no_options) (js "th-1") (js "tu-1") e)
           deltas ∧
    Forall (fun e => ev_type e = item_completed ∧
                     carries (constructor no_options) (js "th-1") (js "tu-1") e)
           ends ∧
    length deltas = 1%nat ∧ length ends = 1%nat.
Proof.
  apply (exec_events_keep_begin_identity (constructor no_options) begin_params
           noon [(delta_other_ids, noon); (delta_without_ids, noon)]
           end_other_ids noon (js "th-1") (js "tu-1")).
  - vm_compute. reflexivity.
  - repeat constructor.
  - vm_compute. reflexivity.
Defined.

(** ** Approval decisions *)

Lemma respondApproval_request_ticket call approvalId decision st requestId :
  stdin_writable st = true →
  pendingApprovals st !! approvalId = Some requestId →
  respondApproval call approvalId decision st =
    settle call (Fulfilled VUndef)
      (set_pendingApprovals (delete approvalId (pendingApprovals st))
         (set_outbox
            (outbox st ++ [decision_response requestId (mapDecision decision)])
            st)).
Proof.
  intros Hw Hp. unfold respondApproval, async, bind, gets, modify, send, ret.
  simpl. rewrite Hp. simpl. rewrite Hw. reflexivity.
Qed.

Lemma respondApproval_unknown call approvalId decision st :
  pendingApprovals st !! approvalId = None →
  pendingNotificationApprovals st !! approvalId = None →
  respondApproval call approvalId decision st = settle call (Fulfilled VUndef) st.
Proof.
  intros Hp Hn. unfold respondApproval, async, bind, gets, ret. simpl.
  rewrite Hp. simpl. rewrite Hn. reflexivity.
Qed.

(** The request-backed path consumes its ticket: a second decision only
    settles the caller's promise. *)
Lemma respondApproval_request_ticket_once c1 c2 approvalId d1 d2 st requestId :
  stdin_writable st = true →
  pendingApprovals st !! approvalId = Some requestId →
  pendingNotificationApprovals st !! approvalId = None →
  let st1 := respondApproval c1 approvalId d1 st in
  outbox st1 = outbox st ++ [decision_response requestId (mapDecision d1)] ∧
  respondApproval c2 approvalId d2 st1 = settle c2 (Fulfilled VUndef) st1.
Proof.
  intros Hw Hp Hn st1. subst st1.
  rewrite (respondApproval_request_ticket _ _ _ _ _ Hw Hp).
  split; [reflexivity|]. apply respondApproval_unknown; simpl.
  - apply lookup_delete_eq.
  - exact Hn.
Qed.

Lemma respondApproval_notification_ticket call approvalId decision st ticket :
  stdin_writable st = true →
  pendingApprovals st !! approvalId = None →
  pendingNotificationApprovals st !! approvalId = Some ticket →
  let st' := respondApproval call approvalId decision st in
  outbox st' = outbox st ++
    [approval_respond_request (nextId st) approvalId (mapDecision decision)] ∧
  nextId st' = (nextId st + 1)%Z ∧
  stdin_writable st' = true ∧
  pendingApprovals st' = pendingApprovals st ∧
  pendingNotificationApprovals st' = pendingNotificationApprovals st.
Proof.
  intros Hw Hp Hn.
  unfold respondApproval, async, try_catch, rpc, bind, gets, modify, send, ret.
  simpl. rewrite Hp. simpl. rewrite Hn. simpl. rewrite Hw. simpl. done.
Qed.

(** The notification-backed path keeps its ticket: every further decision
    issues a further [approval/respond] call. *)
Lemma respondApproval_notification_ticket_again
  c1 c2 approvalId d1 d2 st ticket :
  stdin_writable st = true →
  pendingApprovals st !! approvalId = None →
  pendingNotificationApprovals st !! approvalId = Some ticket →
  outbox (respondApproval c2 approvalId d2 (respondApproval c1 approvalId d1 st))
  = outbox st ++
      [approval_respond_request (nextId st) approvalId (mapDecision d1);
       approval_respond_request (nextId st + 1) approvalId (mapDecision d2)].
Proof.
  intros Hw Hp Hn.
  destruct (respondApproval_notification_ticket c1 approvalId d1 st ticket
              Hw Hp Hn) as (Ho & Hi & Hw' & Hp' & Hn').
  destruct (respondApproval_notification_ticket c2 approvalId d2
              (respondApproval c1 approvalId d1 st) ticket)
    as (Ho2 & _); [done | by rewrite Hp' | by rewrite Hn' |].
  rewrite Ho2, Ho, Hi. by rewrite <- app_assoc.
Qed.

(** C1 at its failing input: the ticket "appr-1" came as a notification;
    the first decision sends [approval/respond] with id 2, the ticket stays,
    and the second decision for the same id sends [approval/respond] again,
    with id 3. *)
Theorem respondApproval_notification_ticket_twice :
  let st1 :=
    respondApproval 0 (js "appr-1") (js "approve_once") with_notification_ticket in
  let st2 := respondApproval 1 (js "appr-1") (js "approve_once") st1 in
  pendingApprovals with_notification_ticket !! js "appr-1" = None ∧
  is_Some (pendingNotificationApprovals with_notification_ticket !! js "appr-1") ∧
  outbox st1 = outbox with_notification_ticket ++
                 [approval_respond_request 2 (js "appr-1") accept] ∧
  outbox st2 = outbox st1 ++ [approval_respond_request 3 (js "appr-1") accept] ∧
  is_Some (pendingNotificationApprovals st2 !! js "appr-1").
Proof. vm_compute. split_and!; eauto. Qed.

(** The specification's scenario for a request-backed ticket: the decision
    for "7" answers request 7 once. *)
Example respondApproval_request_ticket_scenario :
  let st1 := respondApproval 0 (js "7") (js "approve_once") with_request_ticket in
  let st2 := respondApproval 1 (js "7") (js "approve_once") st1 in
  outbox st1 = outbox with_request_ticket ++ [decision_response (VNum 7) accept] ∧
  outbox st2 = outbox st1.
Proof. vm_compute. done. Qed.

(** ** Handshake *)

Lemma table_get_set id p table :
  table_get id (table_set id p table) = Some p.
Proof.
  induction table as [|[id' p'] rest IH]; simpl.
  - by rewrite bool_decide_eq_true_2.
  - case_bool_decide as H; simpl.
    + by rewrite bool_decide_eq_true_2.
    + by rewrite bool_decide_eq_false_2.
Qed.

Lemma handleLine_response msg now st :
  msg ≠ VNull → truthy (msg ?> "method") = false →
  is_undefined (msg ?> "id") = false →
  handleLine (Some msg) now st = handleResponse msg st.
Proof.
  intros Hn Hm Hi. unfold handleLine. rewrite Hm, Hi. simpl.
  destruct msg; try reflexivity. contradiction.
Qed.

(** C8: while the handshake is pending, the response carrying the recorded
    initialize id and no error makes the bridge send [initialized] and
    resolve the readiness promise, resuming whoever awaited it; from then on
    [createThread] passes its await and sends [thread/start].  If the
    response carries an error the readiness promise rejects with its
    message and nothing is sent. *)
Theorem initialize_response st msg now id waiters :
  initRequestId st = Some id →
  ready st = ReadyPending waiters →
  stdin_writable st = true →
  msg ?> "id" = VNum id →
  truthy (msg ?> "method") = false →
  let st' := fst (handleLine (Some msg) now st) in
  (truthy (msg ?> "error") = false →
     outbox st' = outbox st ++ [initialized_message] ∧
     ready st' = ReadyResolved ∧
     jobs st' = jobs st ++ List.map (fun op => JAfterReady op None) waiters ∧
     ∀ call context,
       jobs (createThread call context st') =
         jobs st' ++ [JAfterReady (OpCreateThread call context) None] ∧
       ∀ s, stdin_writable s = true →
         let s' := createThread_afterReady call context None s in
         outbox s' =
           outbox s ++ [thread_start_request (config s) context (nextId s)] ∧
         table_get (nextId s) (pendingRequests s') =
           Some {| pr_cont := KCreateThread call context;
                   pr_method := js "thread/start" |}) ∧
  (truthy (msg ?> "error") = true →
     let message :=
       toString (msg ?> "error" ?> "message" ?? VStr (js "initialize failed")) in
     outbox st' = outbox st ∧
     ready st' = ReadyRejected message ∧
     jobs st' =
       jobs st ++ List.map (fun op => JAfterReady op (Some message)) waiters).
Proof.
  intros Hinit Hready Hw Hid Hm st'. subst st'.
  rewrite handleLine_response; [| by intros -> | done | by rewrite Hid].
  unfold handleResponse, bind, gets. simpl. rewrite Hinit, Hid. simpl.
  rewrite bool_decide_eq_true_2 by done.
  split; intros He; rewrite He.
  - unfold send, modify. rewrite Hw. simpl.
    unfold readyResolve. simpl. rewrite Hready. simpl.
    split_and!; try reflexivity.
    intros call context. split.
    + unfold createThread, await_ready. simpl. reflexivity.
    + intros s Hs.
      unfold createThread_afterReady, async, bind, gets, rpc, bind, gets,
        modify, send. simpl.
      rewrite Hs. simpl. split; [reflexivity|]. apply table_get_set.
  - unfold modify. simpl. unfold readyReject. rewrite Hready. simpl. done.
Qed.

Lemma initialize_response_witness :
  outbox (fst (handleLine (Some initialize_result) noon (constructor no_options)))
    = outbox (constructor no_options) ++ [initialized_message] ∧
  ready (fst (handleLine (Some initialize_result) noon (constructor no_options)))
    = ReadyResolved.
Proof.
  destruct (initialize_response (constructor no_options) initialize_result noon
              1 []) as [Hok _]; try reflexivity.
  destruct Hok as (Ho & Hr & _); [reflexivity|]. exact (conj Ho Hr).
Defined.

(** The specification's scenario: the answer right after construction, then
    [createThread]. *)
Example handshake_then_createThread :
  outbox (run (constructor no_options)
              [(Line (Some initialize_result), noon);
               (CreateThread 0 workspace, noon); (Job, noon)])
  = outbox (constructor no_options) ++
      [initialized_message;
       thread_start_request (config (constructor no_options)) workspace 2].
Proof. vm_compute. reflexivity. Qed.

Example handshake_failure_rejects_createThread :
  settled (run failed_handshake [(CreateThread 0 workspace, noon); (Job, noon)])
  = [(0%nat, Rejected (js "unsupported client"))].
Proof. vm_compute. reflexivity. Qed.

(** ** Peer loss *)




(** The specification's scenario: exit with code 1 while two calls are
    pending. *)
Example exit_with_two_calls_pending :
  let st := run two_calls_pending
                [(Exit (Some 1%Z) None, noon); (Job, noon); (Job, noon)] in
  length (pendingRequests two_calls_pending) = 2%nat ∧
  pendingRequests st = [] ∧
  settled st = [(0%nat, Rejected (js "codex app-server exited (code=1 signal=?)"));
                (1%nat, Rejected (js "codex app-server exited (code=1 signal=?)"))] ∧
  emitted st = [exit_event (js "codex app-server exited (code=1 signal=?)") noon].
Proof. vm_compute. done. Qed.

(** ** Cancellation *)

Lemma rpc_outcome method params k st :
  ∃ st', settled st' = settled st ∧
         (rpc method params k st = (st', Ok tt) ∨
          ∃ message, rpc method params k st = (st', Throw message)).
Proof.
  unfold rpc, bind, gets, modify, send. simpl.
  destruct (stdin_writable st); eexists; (split; [|eauto]); reflexivity.
Qed.

(** C9, as stated, fails: once the handshake has failed, [cancel] rejects
    with the handshake's error. *)
Lemma cancel_rejects_after_failed_handshake :
  ¬ (∀ st call targetId message,
       (call, Rejected message) ∉
         settled (run st [(Cancel call targetId, noon); (Job, noon)])).
Proof.
  intros H.
  apply (H failed_handshake 0%nat (js "turn-1") (js "unsupported client")).
  vm_compute. apply list_elem_of_here.
Qed.

(** C9, amended: once readiness has resolved, [cancel] passes its await and
    never rejects: after the await it either suspends on [turn/cancel] or,
    when sending throws, returns; resumed with either outcome of the call it
    returns.  When readiness was rejected, [cancel] rejects with that
    error. *)
Theorem cancel_swallows_rpc_failure call targetId st :
  (ready st = ReadyResolved →
   jobs (cancel call targetId st) =
     jobs st ++ [JAfterReady (OpCancel call targetId) None]) ∧
  (settled (cancel_afterReady call targetId None st) = settled st ∨
   settled (cancel_afterReady call targetId None st) =
     settled st ++ [(call, Fulfilled VUndef)]) ∧
  (∀ r, cancel_afterRpc call r st = settle call (Fulfilled VUndef) st) ∧
  (∀ message,
     ready st = ReadyRejected message →
     jobs (cancel call targetId st) =
       jobs st ++ [JAfterReady (OpCancel call targetId) (Some message)] ∧
     cancel_afterReady call targetId (Some message) st =
       settle call (Rejected message) st).
Proof.
  split_and!.
  - intros Hr. unfold cancel, await_ready. rewrite Hr. reflexivity.
  - unfold cancel_afterReady, async, try_catch, bind.
    destruct (rpc_outcome (js "turn/cancel") (VObj [(js "turnId", VStr targetId)])
                (KCancel call) st) as (st' & Hs & [-> | [message ->]]); simpl.
    + left. done.
    + right. by rewrite Hs.
  - intros []; reflexivity.
  - intros message Hr. split.
    + unfold cancel, await_ready. rewrite Hr. reflexivity.
    + reflexivity.
Qed.

Lemma cancel_swallows_rpc_failure_witness :
  jobs (cancel 0 (js "turn-1") ready_transport) =
    jobs ready_transport ++ [JAfterReady (OpCancel 0 (js "turn-1")) None].
Proof.
  apply (proj1 (cancel_swallows_rpc_failure 0 (js "turn-1") ready_transport)).
  reflexivity.
Defined.

(** With the peer's stdin closed, [cancel] still returns normally. *)
Example cancel_with_stdin_closed :
  settled (run ready_transport
               [(StdinClosed, noon); (Cancel 0 (js "turn-1"), noon); (Job, noon)])
  = [(0%nat, Fulfilled VUndef)].
Proof. vm_compute. reflexivity. Qed.

(** An error response to [turn/cancel] is swallowed too. *)
Example cancel_with_error_response :
  settled (run ready_transport
               [(Cancel 0 (js "turn-1"), noon); (Job, noon);
                (Line (Some (obj [("id", VNum 2);
                                  ("error", obj [("message", VStr (js "no such turn"))])])),
                 noon);
                (Job, noon)])
  = [(0%nat, Fulfilled VUndef)].
Proof. vm_compute. reflexivity. Qed.

(** ** Invariants of the reachable states *)

Lemma run_app st a b : run st (a ++ b) = run (run st a) b.
Proof. unfold run. by rewrite fold_left_app. Qed.

Lemma run_invariant (P : state → Prop) :
  (∀ st i, P st → P (step st i)) →
  ∀ trace st, P st → P (run st trace).
Proof.
  intros Hstep trace. induction trace as [|i trace IH]; intros st HP; [done|].
  apply IH, Hstep, HP.
Qed.

Ltac unfold_handlers :=
  unfold handleLine, handleServerRequest, handleResponse,
    on_exit, on_error, failAll,
    createThread, sendUserMessage, cancel, await_ready,
    createThread_afterReady, createThread_afterRpc,
    sendUserMessage_afterReady, sendUserMessage_afterRpc,
    cancel_afterReady, cancel_afterRpc,
    respondApproval, respondApproval_afterRpc,
    rpc, startHandshake, async, try_catch, bind, gets, modify, send, ret, throw.

Lemma truthy_string_nonempty v s : truthy_string v = Some s → s ≠ [].
Proof.
  destruct v; simpl; try discriminate. case_bool_decide; [discriminate|].
  by intros [= <-].
Qed.

(** *** Thread announcements *)

Section ThreadStarted.

Variable known : gset jsstring.

Lemma started_count_app t a b :
  started_count t (a ++ b) = (started_count t a + started_count t b)%nat.
Proof. unfold started_count. by rewrite List.filter_app, length_app. Qed.

Lemma seen_inv_frame st st' :
  emitted st' = emitted st → seenThreads st' = seenThreads st →
  threadContexts st' = threadContexts st →
  seen_inv known st → seen_inv known st'.
Proof. unfold seen_inv. intros -> -> ->. done. Qed.

Lemma seen_inv_emitEvent e st :
  ev_type e ≠ thread_started → seen_inv known st →
  seen_inv known (emitEvent e st).
Proof.
  intros Ht (Hc & Hd & Hk). split_and!; [|exact Hd|exact Hk]. intros t. simpl.
  rewrite started_count_app, Hc. simpl.
  unfold started_count, is_thread_started. simpl.
  destruct (ev_type e); try contradiction; simpl; lia.
Qed.

Lemma emitThreadStarted_seen now t st :
  t ∈ seenThreads (emitThreadStarted now t st).
Proof.
  unfold emitThreadStarted. case_bool_decide; [done|]. simpl.
  apply elem_of_union. left. by apply elem_of_singleton.
Qed.

Lemma emitThreadStarted_contexts now t st :
  threadContexts (emitThreadStarted now t st) = threadContexts st.
Proof. unfold emitThreadStarted. by case_bool_decide. Qed.

(** The counting half of the invariant alone survives
    [emitThreadStarted], and the seen set only grows. *)
Lemma emitThreadStarted_count now t st :
  (∀ t', started_count t' (emitted st) =
         if bool_decide (t' ∈ seenThreads st) then 1%nat else 0%nat) →
  (∀ t', started_count t' (emitted (emitThreadStarted now t st)) =
         if bool_decide (t' ∈ seenThreads (emitThreadStarted now t st))
         then 1%nat else 0%nat) ∧
  seenThreads st ⊆ seenThreads (emitThreadStarted now t st).
Proof.
  intros Hc. unfold emitThreadStarted. case_bool_decide as Hin; [done|]. simpl.
  split; [|apply union_subseteq_r]. intros t'.
  rewrite started_count_app, Hc.
  unfold started_count. simpl. unfold is_thread_started. simpl.
  destruct (decide (t' = t)) as [->|Hne].
  - rewrite bool_decide_eq_false_2 by done.
    rewrite (bool_decide_eq_true_2 (t = t)) by done.
    rewrite bool_decide_eq_true_2; [reflexivity|].
    apply elem_of_union. left. by apply elem_of_singleton.
  - rewrite (bool_decide_eq_false_2 (t' = t)) by done. simpl.
    rewrite Nat.add_0_r.
    rewrite (bool_decide_ext (t' ∈ {[t]} ∪ seenThreads st)
                             (t' ∈ seenThreads st)); [reflexivity|].
    rewrite elem_of_union, elem_of_singleton. intuition congruence.
Qed.

Lemma seen_inv_emitThreadStarted now t st :
  seen_inv known st → seen_inv known (emitThreadStarted now t st).
Proof.
  intros (Hc & Hd & Hk).
  destruct (emitThreadStarted_count now t st Hc) as [Hc' Hmono].
  split_and!; [exact Hc'| |by etrans].
  intros t'. rewrite emitThreadStarted_contexts. intros H.
  apply Hmono, Hd, H.
Qed.

(** What [createThread] does once it has the thread id: the thread gets
    its context and is in the seen set afterwards. *)
Lemma seen_inv_register now t c st :
  seen_inv known st →
  seen_inv ({[t]} ∪ known)
    (emitThreadStarted now t
       (flushThreadNotification now t
          (set_threadContexts (<[t := c]> (threadContexts st)) st))).
Proof.
  intros (Hc & Hd & Hk).
  set (s1 := set_threadContexts (<[t := c]> (threadContexts st)) st).
  assert (Hc1 : ∀ t', started_count t' (emitted s1) =
                      if bool_decide (t' ∈ seenThreads s1) then 1%nat else 0%nat)
    by exact Hc.
  assert (∃ s2, flushThreadNotification now t s1 = s2 ∧
                (∀ t', started_count t' (emitted s2) =
                       if bool_decide (t' ∈ seenThreads s2) then 1%nat else 0%nat) ∧
                seenThreads st ⊆ seenThreads s2 ∧
                threadContexts s2 = <[t := c]> (threadContexts st))
    as (s2 & -> & Hc2 & Hm2 & Hx2).
  { eexists. split; [reflexivity|]. unfold flushThreadNotification.
    case_bool_decide; [|done].
    match goal with |- context [emitThreadStarted now t ?s] =>
      destruct (emitThreadStarted_count now t s Hc1) as [Hc' Hm'];
      pose proof (emitThreadStarted_contexts now t s) as Hx' end.
    split_and!; [exact Hc' | exact Hm' | by rewrite Hx']. }
  destruct (emitThreadStarted_count now t _ Hc2) as [Hc3 Hm3].
  split_and!; [exact Hc3| |].
  - intros t'. rewrite emitThreadStarted_contexts, Hx2.
    destruct (decide (t = t')) as [<-|Hne].
    + intros _. apply emitThreadStarted_seen.
    + rewrite lookup_insert_ne by done. intros H. apply Hm3, Hm2, Hd, H.
  - apply union_subseteq. split.
    + apply singleton_subseteq_l, emitThreadStarted_seen.
    + etrans; [exact Hk|]. by etrans.
Qed.

Lemma seen_inv_weaken t st :
  seen_inv ({[t]} ∪ known) st → seen_inv known st.
Proof.
  intros (Hc & Hd & Hk). split_and!; [done|done|].
  etrans; [apply union_subseteq_r|exact Hk].
Qed.

Ltac seen_peel :=
  repeat first
    [ assumption
    | progress cbv zeta
    | eapply seen_inv_weaken; apply seen_inv_register
    | apply seen_inv_emitThreadStarted
    | apply seen_inv_emitEvent; [simpl; repeat case_match; discriminate|]
    | progress unfold enqueue, settle, readyResolve, readyReject
    | match goal with
      | |- seen_inv _ (?f _ ?s) => apply (seen_inv_frame s); [reflexivity..|]
      | |- seen_inv _ (match ?x with _ => _ end) => destruct x eqn:?
      end ].

Lemma seen_inv_emitApprovalRequest now method params requestId st :
  seen_inv known st →
  seen_inv known (emitApprovalRequest now method params requestId st).
Proof.
  intros H. unfold emitApprovalRequest.
  repeat case_match; simplify_eq; seen_peel.
Qed.

Lemma seen_inv_handleCodexEvent method params now st :
  seen_inv known st → seen_inv known (handleCodexEvent method params now st).
Proof.
  intros H. unfold handleCodexEvent.
  repeat case_match; simplify_eq; seen_peel.
Qed.

Lemma seen_inv_handleNotification method params now st :
  seen_inv known st → seen_inv known (handleNotification method params now st).
Proof.
  intros H. unfold handleNotification.
  repeat case_match; simplify_eq;
    auto using seen_inv_handleCodexEvent, seen_inv_emitApprovalRequest;
    seen_peel.
Qed.

Lemma seen_inv_step st i : seen_inv known st → seen_inv known (step st i).
Proof.
  intros H. destruct i as [i now]. destruct i; simpl.
  - unfold_handlers. simpl.
    repeat (case_match; simplify_eq; simpl);
      auto using seen_inv_handleNotification, seen_inv_emitApprovalRequest;
      seen_peel.
  - unfold_handlers. simpl. seen_peel.
  - unfold_handlers. simpl. seen_peel.
  - seen_peel.
  - destruct (jobs st) as [|j rest] eqn:Hj; [done|].
    assert (H' : seen_inv known (set_jobs rest st)) by seen_peel.
    revert H'. generalize (set_jobs rest st). clear. intros st H.
    destruct j as [[]|[]]; simpl; unfold_handlers; simpl;
      repeat (case_match; simplify_eq; simpl); seen_peel.
  - unfold_handlers. case_match; seen_peel.
  - unfold_handlers. case_match; seen_peel.
  - unfold_handlers. case_match; seen_peel.
  - unfold_handlers. simpl. repeat (case_match; simplify_eq; simpl); seen_peel.
Qed.

Lemma seen_inv_run trace st : seen_inv known st → seen_inv known (run st trace).
Proof. apply run_invariant, seen_inv_step. Qed.

End ThreadStarted.

Lemma seen_inv_constructor opts : seen_inv ∅ (constructor opts).
Proof.
  unfold constructor. unfold_handlers. simpl. split_and!.
  - intros t. reflexivity.
  - intros t [c Hc]. simpl in Hc. by rewrite lookup_empty in Hc.
  - apply empty_subseteq.
Qed.

(** Resuming [createThread] with the peer's result registers the thread. *)
Lemma seen_inv_createThread_afterRpc known call context result now t st :
  truthy_string (result ?> "thread" ?> "id") = Some t →
  seen_inv known st →
  seen_inv ({[t]} ∪ known)
           (createThread_afterRpc call context (Fulfilled result) now st).
Proof.
  intros Ht H. unfold createThread_afterRpc, async, bind, modify, ret.
  rewrite Ht. simpl.
  apply (seen_inv_frame _ (emitThreadStarted now t
           (flushThreadNotification now t
              (set_threadContexts
                 (<[t := {| tc_sessionId := default t (wc_sessionId context);
                            tc_cwd := workspaceRoot context |}]>
                    (threadContexts st)) st)))); [reflexivity..|].
  by apply seen_inv_register.
Qed.

(** C6: once [createThread] has resumed with thread id [t], whatever the
    transport did before and does after (the peer's [thread/started] for [t]
    may come earlier, later, repeatedly or never), exactly one
    [thread.started] event names [t]; and no thread is ever announced
    twice. *)
Theorem thread_started_exactly_once
  opts before after now call context result rest t :
  jobs (run (constructor opts) before)
    = JAfterRpc (KCreateThread call context) (Fulfilled result) :: rest →
  truthy_string (result ?> "thread" ?> "id") = Some t →
  let st := run (constructor opts) (before ++ (Job, now) :: after) in
  started_count t (emitted st) = 1%nat ∧
  ∀ t', (started_count t' (emitted st) <= 1)%nat.
Proof.
  intros Hjobs Ht st.
  assert (Hinv : seen_inv ({[t]} ∪ ∅) st).
  { subst st. rewrite run_app.
    change (run ?s ((Job, now) :: after)) with (run (step s (Job, now)) after).
    apply seen_inv_run. unfold step. rewrite Hjobs.
    change (run_job (JAfterRpc (KCreateThread call context) (Fulfilled result)) now)
      with (createThread_afterRpc call context (Fulfilled result) now).
    apply seen_inv_createThread_afterRpc; [exact Ht|].
    match goal with |- seen_inv _ (set_jobs _ ?s) =>
      apply (seen_inv_frame _ s); [reflexivity..|] end.
    apply seen_inv_run, seen_inv_constructor. }
  destruct Hinv as (Hc & _ & Hk). split.
  - rewrite Hc. rewrite bool_decide_eq_true_2; [reflexivity|].
    apply Hk, elem_of_union. left. by apply elem_of_singleton.
  - intros t'. rewrite Hc. case_bool_decide; lia.
Qed.

Lemma thread_started_exactly_once_witness :
  started_count (js "th-1")
    (emitted (run (constructor no_options)
                  (peer_first ++ (Job, noon) ::
                   [(Line (Some (thread_started_notification (js "th-1"))), noon)])))
  = 1%nat.
Proof.
  apply (thread_started_exactly_once no_options peer_first
           [(Line (Some (thread_started_notification (js "th-1"))), noon)]
           noon 0 workspace
           (obj [("thread", obj [("id", VStr (js "th-1"))])]) [] (js "th-1")).
  - vm_compute. reflexivity.
  - vm_compute. reflexivity.
Defined.

(** Both orders on a run: the peer's notification before the local resume is
    deferred and flushed; after it, it is deduplicated. *)
Example thread_started_peer_first :
  let st := run (constructor no_options) peer_first in
  emitted st = [] ∧ js "th-1" ∈ pendingThreadNotifications st ∧
  started_count (js "th-1") (emitted (run st [(Job, noon)])) = 1%nat.
Proof.
  vm_compute. split_and!; reflexivity.
Qed.

Example thread_started_local_first :
  let st := run (constructor no_options) (local_first ++ [(Job, noon)]) in
  started_count (js "th-1") (emitted st) = 1%nat ∧
  emitted (run st [(Line (Some (thread_started_notification (js "th-1"))), noon)])
  = emitted st.
Proof. vm_compute. done. Qed.

(** *** Answers to the peer *)















(** The peer's call 0 stays unanswered: deciding the generated ticket sends
    an [approval/respond] call, and the request-backed id "0" is unknown. *)
Example approval_call_zero_unanswered :
  let st := step ready_transport (Line (Some (approval_call 0)), noon) in
  let ticket := generated_approvalId noon ready_transport in
  outbox (respondApproval 0 (js "0") (js "approve_once") st) = outbox st ∧
  outbox (respondApproval 0 ticket (js "approve_once") st)
    = outbox st ++ [approval_respond_request 3 ticket accept].
Proof. vm_compute. done. Qed.

(** With id 7 the same call registers a responder, as the specification's
    scenario has it. *)
Example approval_call_seven :
  pendingApprovals with_request_ticket !! js "7" = Some (VNum 7) ∧
  pendingNotificationApprovals with_request_ticket = ∅.
Proof. vm_compute. done. Qed.

(** *** Addressed events *)
























(** A turn notification without a turn id is dropped. *)
Example turn_started_without_turn_dropped :
  run ready_transport
      [(Line (Some (obj [("method", VStr (js "turn/started"));
                         ("params", obj [("threadId", VStr (js "th-1"))])])),
        noon)]
  = ready_transport.
Proof. vm_compute. reflexivity. Qed.
(** ** Further properties of the transport *)

(** *** Call identifiers *)

Lemma call_ids_app a b : call_ids (a ++ b) = call_ids a ++ call_ids b.
Proof. unfold call_ids. apply omap_app. Qed.

Lemma table_delete_elem id table e :
  e ∈ table_delete id table ↔ e ∈ table ∧ fst e ≠ id.
Proof.
  unfold table_delete. rewrite !list_elem_of_In, filter_In.
  rewrite negb_true_iff, bool_decide_eq_false. intuition congruence.
Qed.

Lemma table_delete_ids id table :
  (table_delete id table).*1 ⊆ table.*1.
Proof.
  intros x. rewrite !list_elem_of_fmap. intros (e & -> & He).
  exists e. split; [done|]. by apply table_delete_elem in He as [He _].
Qed.

Lemma table_delete_NoDup id table :
  NoDup table.*1 → NoDup (table_delete id table).*1.
Proof.
  induction table as [|e l IH]; [done|]. simpl. intros [Hx Hl]%NoDup_cons.
  case_match; [|by apply IH]. simpl. apply NoDup_cons. split; [|by apply IH].
  intros Hin. by apply Hx, (table_delete_ids id).
Qed.

Lemma table_set_fresh id p table :
  id ∉ table.*1 → table_set id p table = table ++ [(id, p)].
Proof.
  induction table as [|[id' p'] rest IH]; [done|]. simpl. intros Hn.
  apply not_elem_of_cons in Hn as [Hne Hrest]. case_bool_decide; [done|].
  by rewrite IH.
Qed.

Lemma ids_inv_frame st st' :
  outbox st' = outbox st → nextId st' = nextId st →
  pendingRequests st' = pendingRequests st →
  initRequestId st' = initRequestId st →
  ids_inv st → ids_inv st'.
Proof. unfold ids_inv, pending_ids. intros -> -> -> ->. done. Qed.

Lemma ids_inv_send m o st :
  call_id m = None → o = outbox st → ids_inv st →
  ids_inv (set_outbox (o ++ [m]) st).
Proof.
  intros Hm -> H. unfold ids_inv, pending_ids in *. simpl.
  rewrite call_ids_app. simpl. rewrite Hm. simpl. rewrite app_nil_r. exact H.
Qed.

Lemma ids_inv_bump n st :
  n = nextId st → ids_inv st → ids_inv (set_nextId (n + 1)%Z st).
Proof.
  intros -> (H0 & H1 & H2 & H3 & H4 & H5). unfold ids_inv, pending_ids in *.
  simpl. repeat split; try done; try (by apply H5); [lia|].
  eapply Forall_impl; [exact H2|]. simpl. lia.
Qed.

Lemma ids_inv_drop id table st :
  table = pendingRequests st → ids_inv st →
  ids_inv (set_pendingRequests (table_delete id table) st).
Proof.
  intros -> (H0 & H1 & H2 & H3 & H4 & H5). unfold ids_inv, pending_ids in *.
  simpl. repeat split; try done.
  - by apply table_delete_NoDup.
  - etrans; [apply table_delete_ids | done].
  - by apply H5.
  - intros Hin. by apply (proj2 (H5 _ H)), (table_delete_ids id).
Qed.

Lemma ids_inv_clear st :
  ids_inv st → ids_inv (set_pendingRequests [] st).
Proof.
  intros (H0 & H1 & H2 & H3 & H4 & H5). unfold ids_inv, pending_ids in *. simpl.
  repeat split; try done; try (by apply H5).
  - constructor.
  - intros x Hx. by apply elem_of_nil in Hx.
  - apply not_elem_of_nil.
Qed.

Lemma ids_inv_handshake_done st :
  ids_inv st → ids_inv (set_initRequestId None st).
Proof.
  intros (H0 & H1 & H2 & H3 & H4 & H5). unfold ids_inv, pending_ids in *. simpl.
  repeat split; done.
Qed.

Lemma rpc_writable method params k st :
  stdin_writable st = true →
  rpc method params k st = (rpc_sent method params k st, Ok tt).
Proof.
  intros Hw. unfold rpc, bind, gets, modify, send. simpl. rewrite Hw.
  reflexivity.
Qed.

Lemma rpc_closed method params k st :
  stdin_writable st = false →
  rpc method params k st =
    (set_nextId (nextId st + 1)%Z st, Throw not_writable).
Proof.
  intros Hw. unfold rpc, bind, gets, modify, send. simpl. rewrite Hw.
  reflexivity.
Qed.

Lemma call_id_rpc_request method id params :
  method ≠ [] → call_id (rpc_request method id params) = Some id.
Proof. intros Hm. unfold call_id. simpl. by case_bool_decide. Qed.

Lemma ids_inv_call m p st :
  call_id m = Some (nextId st) → ids_inv st →
  ids_inv (set_pendingRequests
             (table_set (nextId st) p (pendingRequests st))
             (set_outbox (outbox st ++ [m]) (set_nextId (nextId st + 1)%Z st))).
Proof.
  intros Hc (H0 & H1 & H2 & H3 & H4 & H5).
  assert (Hfresh : nextId st ∉ call_ids (outbox st)).
  { intros Hin. rewrite Forall_forall in H2. apply H2 in Hin. lia. }
  assert (Hfresh' : nextId st ∉ (pendingRequests st).*1).
  { intros Hin. by apply Hfresh, H4. }
  unfold ids_inv, pending_ids. simpl.
  rewrite table_set_fresh by done. rewrite call_ids_app, fmap_app. simpl.
  rewrite Hc. simpl.
  repeat split.
  - lia.
  - apply NoDup_app. repeat split; [done| |apply NoDup_singleton].
    intros x Hx ->%list_elem_of_singleton. done.
  - apply Forall_app. split.
    + eapply Forall_impl; [exact H2|]. simpl. lia.
    + constructor; [lia|constructor].
  - apply NoDup_app. repeat split; [done| |apply NoDup_singleton].
    intros x Hx ->%list_elem_of_singleton. done.
  - intros x. rewrite !elem_of_app. intros [Hx|Hx]; [left; by apply H4 | by right].
  - apply elem_of_app. left. by apply H5.
  - intros Hin. apply elem_of_app in Hin as [Hin|Hin].
    + by apply (proj2 (H5 _ H)).
    + apply list_elem_of_singleton in Hin. subst n. apply Hfresh. by apply H5.
Qed.

(** A call takes the next id, and the table entry follows the write. *)
Lemma ids_inv_rpc method params k st :
  method ≠ [] → ids_inv st → ids_inv (fst (rpc method params k st)).
Proof.
  intros Hm H. destruct (stdin_writable st) eqn:Hw.
  - rewrite rpc_writable by done. apply ids_inv_call; [|done].
    by apply call_id_rpc_request.
  - rewrite rpc_closed by done. by apply ids_inv_bump.
Qed.

Lemma ids_inv_grow st st' :
  outbox st' = outbox st → (nextId st ≤ nextId st')%Z →
  pendingRequests st' = pendingRequests st →
  initRequestId st' = initRequestId st →
  ids_inv st → ids_inv st'.
Proof.
  unfold ids_inv, pending_ids. intros -> Hn -> -> (H0 & H1 & H2 & H3).
  split_and!; try tauto; [lia|]. eapply Forall_impl; [exact H2|]. simpl. lia.
Qed.

(** Notifications write nothing, touch neither the pending table nor the
    handshake, and take an id at most (for a generated approval id). *)
Lemma handleNotification_calls method params now st :
  let st' := handleNotification method params now st in
  outbox st' = outbox st ∧ (nextId st ≤ nextId st')%Z ∧
  pendingRequests st' = pendingRequests st ∧
  initRequestId st' = initRequestId st.
Proof.
  unfold handleNotification, handleCodexEvent, emitApprovalRequest,
    emitThreadStarted.
  repeat case_match; simplify_eq; simpl; split_and!; try done; lia.
Qed.

Lemma emitApprovalRequest_calls now method params requestId st :
  let st' := emitApprovalRequest now method params requestId st in
  outbox st' = outbox st ∧ (nextId st ≤ nextId st')%Z ∧
  pendingRequests st' = pendingRequests st ∧
  initRequestId st' = initRequestId st.
Proof.
  unfold emitApprovalRequest.
  repeat case_match; simplify_eq; simpl; split_and!; try done; lia.
Qed.

Ltac unfold_operations :=
  unfold handleLine, handleServerRequest, handleResponse,
    on_exit, on_error, failAll,
    createThread, sendUserMessage, cancel, await_ready,
    createThread_afterReady, createThread_afterRpc,
    sendUserMessage_afterReady, sendUserMessage_afterRpc,
    cancel_afterReady, cancel_afterRpc,
    respondApproval, respondApproval_afterRpc,
    async, try_catch, bind, gets, modify, ret, throw.

Ltac ids_rpc :=
  match goal with
  | H : rpc ?m ?p ?k ?s = (?s', _) |- _ =>
      let X := fresh in
      assert (X : ids_inv s');
      [ let Y := fresh in
        assert (Y : ids_inv (fst (rpc m p k s)));
        [ apply ids_inv_rpc; [by vm_compute|] | by rewrite H in Y ]
      | clear H ]
  end.

Ltac ids_peel :=
  repeat first
    [ assumption
    | progress cbv zeta
    | apply ids_inv_send; [reflexivity | reflexivity |]
    | apply ids_inv_drop; [reflexivity|]
    | apply ids_inv_clear
    | apply ids_inv_handshake_done
    | progress unfold enqueue, settle, readyResolve, readyReject, emitEvent,
        flushThreadNotification, emitThreadStarted
    | match goal with
      | |- ids_inv (handleNotification ?m ?p ?n ?s) =>
          apply (ids_inv_grow s); [apply handleNotification_calls..|]
      | |- ids_inv (emitApprovalRequest ?n ?m ?p ?r ?s) =>
          apply (ids_inv_grow s); [apply emitApprovalRequest_calls..|]
      | |- ids_inv (?f _ ?s) => apply (ids_inv_frame s); [reflexivity..|]
      | |- ids_inv (match ?x with _ => _ end) => destruct x eqn:?
      end ].

Lemma ids_inv_step st i : ids_inv st → ids_inv (step st i).
Proof.
  intros H. destruct i as [i now]. destruct i; simpl.
  - unfold_operations. unfold send. simpl.
    repeat (case_match; simplify_eq; simpl); ids_peel.
  - unfold_operations. simpl. ids_peel.
  - unfold_operations. simpl. ids_peel.
  - ids_peel.
  - destruct (jobs st) as [|j rest] eqn:Hj; [done|].
    assert (H' : ids_inv (set_jobs rest st)) by ids_peel.
    revert H'. generalize (set_jobs rest st). clear. intros st H.
    destruct j as [[]|[]]; simpl; unfold_operations; simpl;
      repeat (case_match; simplify_eq; simpl); try ids_rpc; ids_peel.
  - unfold_operations. case_match; ids_peel.
  - unfold_operations. case_match; ids_peel.
  - unfold_operations. case_match; ids_peel.
  - unfold_operations. unfold send. simpl.
    repeat (case_match; simplify_eq; simpl); try ids_rpc; ids_peel.
Qed.

(** *** Responses *)

Lemma table_get_delete id table : table_get id (table_delete id table) = None.
Proof.
  induction table as [|[id' p] rest IH]; [done|]. simpl.
  case_bool_decide; simpl; [done|]. by rewrite bool_decide_eq_false_2.
Qed.

Lemma table_get_delete_ne id id' table :
  id' ≠ id → table_get id' (table_delete id table) = table_get id' table.
Proof.
  intros Hne. induction table as [|[i p] rest IH]; [done|]. simpl.
  case_bool_decide as H1; simpl.
  - subst i. by rewrite bool_decide_eq_false_2.
  - by rewrite IH.
Qed.

Lemma table_get_Some id table p :
  table_get id table = Some p → id ∈ table.*1.
Proof.
  induction table as [|[i q] rest IH]; [done|]. simpl.
  case_bool_decide; [intros _; subst; left | intros H'; right; by apply IH].
Qed.

Lemma table_get_None id table :
  id ∉ table.*1 → table_get id table = None.
Proof.
  intros Hn. destruct (table_get id table) eqn:H; [|done].
  by apply table_get_Some in H.
Qed.

Lemma handleResponse_pending msg st n p :
  same_id (initRequestId st) (msg ?> "id") = false →
  msg ?> "id" = VNum n →
  table_get n (pendingRequests st) = Some p →
  handleResponse msg st =
    (enqueue [JAfterRpc (pr_cont p) (response_settlement msg (pr_method p))]
       (set_pendingRequests (table_delete n (pendingRequests st)) st), Ok tt).
Proof.
  intros Hs Hi Hp. unfold handleResponse, response_settlement, bind, gets, modify.
  simpl. rewrite Hs, Hi. simpl. rewrite Hp. simpl.
  destruct (truthy (msg ?> "error")); reflexivity.
Qed.

Lemma handleResponse_unknown msg st :
  same_id (initRequestId st) (msg ?> "id") = false →
  (∀ n, msg ?> "id" = VNum n → table_get n (pendingRequests st) = None) →
  handleResponse msg st = (st, Ok tt).
Proof.
  intros Hs Hn. unfold handleResponse, bind, gets. simpl. rewrite Hs.
  destruct (msg ?> "id") eqn:Hi; try reflexivity.
  rewrite (Hn n eq_refl). reflexivity.
Qed.

(** The handshake's id is below every id a later call can take, and no
    pending call shares it. *)
Lemma ids_inv_not_init st n :
  ids_inv st → n ∈ pending_ids st → same_id (initRequestId st) (VNum n) = false.
Proof.
  intros (_ & _ & _ & _ & _ & H5) Hn. destruct (initRequestId st) as [i|] eqn:Hi;
    [|done]. simpl. apply bool_decide_eq_false. intros ->.
  by apply (proj2 (H5 _ eq_refl)).
Qed.

Lemma ids_inv_next_free st :
  ids_inv st →
  table_get (nextId st) (pendingRequests st) = None ∧
  same_id (initRequestId st) (VNum (nextId st)) = false.
Proof.
  intros (_ & _ & H2 & _ & H4 & H5).
  assert (Hfresh : nextId st ∉ call_ids (outbox st)).
  { intros Hin. rewrite Forall_forall in H2. apply H2 in Hin. lia. }
  split.
  - apply table_get_None. intros Hin. by apply Hfresh, H4.
  - destruct (initRequestId st) as [i|] eqn:Hi; [|done]. simpl.
    apply bool_decide_eq_false. intros ->. by apply Hfresh, H5.
Qed.

Lemma step_line st parsed now :
  step st (Line parsed, now) = fst (handleLine parsed now st).
Proof. reflexivity. Qed.

Lemma step_job st j rest now :
  jobs st = j :: rest → step st (Job, now) = run_job j now (set_jobs rest st).
Proof. intros H. simpl. by rewrite H. Qed.

(** X1: a response whose id matches no pending call (and not the
    handshake) changes nothing. *)
Theorem response_with_unknown_id_ignored st msg now :
  is_response msg →
  same_id (initRequestId st) (msg ?> "id") = false →
  (∀ n, msg ?> "id" = VNum n → table_get n (pendingRequests st) = None) →
  step st (Line (Some msg), now) = st.
Proof.
  intros (Hn & Hm & Hi) Hs Hp. rewrite step_line.
  rewrite handleLine_response by done. by rewrite handleResponse_unknown.
Qed.

Lemma response_with_unknown_id_ignored_witness :
  step two_calls_pending (Line (Some (result_response 9 VNull)), noon)
  = two_calls_pending.
Proof.
  apply response_with_unknown_id_ignored.
  - split_and!; [discriminate | reflexivity | reflexivity].
  - reflexivity.
  - intros n [= <-]. reflexivity.
Defined.

(** X2: a response settles the call registered under its id and no other:
    one settlement is queued for the method awaiting it (the result, the
    error's message, or "RPC error: <method>" when the error has none),
    that entry leaves the pending table, and every other pending call, the
    outbox, the events and readiness stay as they were. *)
Theorem response_settles_its_call st msg now n p :
  ids_inv st → is_response msg → msg ?> "id" = VNum n →
  table_get n (pendingRequests st) = Some p →
  let st' := step st (Line (Some msg), now) in
  (∃ r, jobs st' = jobs st ++ [JAfterRpc (pr_cont p) r] ∧
        (truthy (msg ?> "error") = false → r = Fulfilled (msg ?> "result")) ∧
        (∀ m, truthy (msg ?> "error") = true →
              msg ?> "error" ?> "message" = VStr m → r = Rejected m) ∧
        (truthy (msg ?> "error") = true →
         nullish (msg ?> "error" ?> "message") = true →
         r = Rejected (js "RPC error: " ++ pr_method p))) ∧
  table_get n (pendingRequests st') = None ∧
  (∀ m, m ≠ n →
        table_get m (pendingRequests st') = table_get m (pendingRequests st)) ∧
  outbox st' = outbox st ∧ emitted st' = emitted st ∧ settled st' = settled st ∧
  ready st' = ready st.
Proof.
  intros Hinv (Hn & Hm & Hi) Hid Hp st'. subst st'. rewrite step_line.
  rewrite handleLine_response by done.
  erewrite handleResponse_pending; [|rewrite Hid|exact Hid|exact Hp].
  2:{ apply ids_inv_not_init; [done|]. by eapply table_get_Some. }
  simpl. split_and!; try done.
  - eexists. split; [reflexivity|]. unfold response_settlement.
    split_and!.
    + by intros ->.
    + intros m -> ->. done.
    + intros -> Hnull. destruct (msg ?> "error" ?> "message"); done.
  - apply table_get_delete.
  - intros m Hne. by apply table_get_delete_ne.
Qed.

Lemma ids_inv_constructor opts : ids_inv (constructor opts).
Proof.
  unfold ids_inv, pending_ids. cbn. split_and!.
  - lia.
  - apply NoDup_singleton.
  - by repeat constructor.
  - constructor.
  - intros x Hx. by apply elem_of_nil in Hx.
  - intros n [= <-]. split; [by left | apply not_elem_of_nil].
Qed.

Lemma ids_inv_reachable opts trace : ids_inv (run (constructor opts) trace).
Proof.
  apply run_invariant; [apply ids_inv_step | apply ids_inv_constructor].
Qed.

(** X3: in every reachable state the calls written to the peer carry
    pairwise distinct ids, all below [nextId]; the pending table holds
    distinct ids, each of a call that was written. *)
Theorem call_ids_never_reused opts trace :
  let st := run (constructor opts) trace in
  NoDup (call_ids (outbox st)) ∧
  Forall (fun n => (1 ≤ n < nextId st)%Z) (call_ids (outbox st)) ∧
  NoDup (pending_ids st) ∧
  pending_ids st ⊆ call_ids (outbox st).
Proof.
  destruct (ids_inv_reachable opts trace) as (H0 & H1 & H2 & H3 & H4 & H5).
  done.
Qed.

Lemma two_calls_pending_reachable :
  two_calls_pending =
  run (constructor no_options)
      [(Line (Some initialize_result), noon);
       (CreateThread 0 workspace, noon); (Job, noon);
       (SendUserMessage 1 (js "th-1") (js "hello") None, noon);
       (Job, noon)].
Proof. vm_compute. reflexivity. Qed.

Lemma response_settles_its_call_witness :
  let st' := step two_calls_pending
                  (Line (Some (result_response 3 VNull)), noon) in
  table_get 3 (pendingRequests st') = None ∧
  table_get 2 (pendingRequests st') = table_get 2 (pendingRequests two_calls_pending).
Proof.
  pose proof (response_settles_its_call two_calls_pending
                (result_response 3 VNull) noon 3
                {| pr_cont := KSendUserMessage 1 (js "th-1");
                   pr_method := js "turn/start" |}) as H.
  destruct H as (_ & H1 & H2 & _).
  - rewrite two_calls_pending_reachable. apply ids_inv_reachable.
  - split_and!; [discriminate | vm_compute; reflexivity | vm_compute; reflexivity].
  - vm_compute. reflexivity.
  - vm_compute. reflexivity.
  - split; [exact H1 | apply H2; lia].
Defined.

(** *** Operations, end to end *)

Lemma table_delete_set_fresh id p table :
  id ∉ table.*1 → table_delete id (table_set id p table) = table.
Proof.
  intros Hn. rewrite table_set_fresh by done. unfold table_delete.
  rewrite List.filter_app. simpl. rewrite bool_decide_eq_true_2 by done. simpl.
  rewrite app_nil_r. induction table as [|[i q] rest IH]; [done|]. simpl.
  apply not_elem_of_cons in Hn as [Hne Hrest]. simpl in Hne.
  rewrite bool_decide_eq_false_2 by done. simpl. by rewrite IH.
Qed.

Lemma await_ready_resolved op st :
  ready st = ReadyResolved → await_ready op st = enqueue [JAfterReady op None] st.
Proof. intros H. unfold await_ready. by rewrite H. Qed.

Lemma createThread_afterReady_sent call ctx st :
  stdin_writable st = true →
  createThread_afterReady call ctx None st =
    rpc_sent (js "thread/start")
      (VObj [(js "model", VStr (model (config st)));
             (js "cwd", VStr (workspaceRoot ctx));
             (js "approvalPolicy", VStr (approvalPolicy (config st)));
             (js "sandbox", VStr (sandbox_string (sandbox (config st))))])
      (KCreateThread call ctx) st.
Proof.
  intros Hw. unfold createThread_afterReady, async, bind, gets, ret.
  cbv beta. by rewrite rpc_writable.
Qed.

(** A call made in a ready state with nothing else queued, followed by the
    peer's response to it: the state in which the method resumes. *)
Lemma call_answered method params k msg st now :
  ids_inv st → stdin_writable st = true →
  is_response msg → msg ?> "id" = VNum (nextId st) →
  step (rpc_sent method params k st) (Line (Some msg), now) =
    enqueue [JAfterRpc k (response_settlement msg method)]
      (set_outbox (outbox st ++ [rpc_request method (nextId st) params])
                  (set_nextId (nextId st + 1)%Z st)).
Proof.
  intros Hinv Hw (Hn & Hm & Hi) Hid.
  destruct (ids_inv_next_free st Hinv) as [Hfree Hinit].
  assert (Hfresh : nextId st ∉ (pendingRequests st).*1).
  { intros Hin. destruct (table_get (nextId st) (pendingRequests st)) eqn:E;
      [done|]. clear -Hin E. induction (pendingRequests st) as [|[i q] r IH];
      [by apply elem_of_nil in Hin|]. simpl in *. case_bool_decide; [done|].
    apply elem_of_cons in Hin as [Hin|Hin]; [done|]. by apply IH. }
  rewrite step_line, handleLine_response by done.
  erewrite handleResponse_pending;
    [|rewrite Hid; exact Hinit | exact Hid | apply table_get_set].
  simpl. unfold rpc_sent. simpl. rewrite table_delete_set_fresh by done.
  destruct st; reflexivity.
Qed.

Lemma is_response_result id result : is_response (result_response id result).
Proof. split_and!; [discriminate | reflexivity | reflexivity]. Qed.

Lemma is_response_error id err : is_response (error_response id err).
Proof. split_and!; [discriminate | reflexivity | reflexivity]. Qed.

Lemma response_settlement_result id result method :
  response_settlement (result_response id result) method = Fulfilled result.
Proof. reflexivity. Qed.

Lemma createThread_afterRpc_ok call ctx result now t st :
  truthy_string (result ?> "thread" ?> "id") = Some t →
  createThread_afterRpc call ctx (Fulfilled result) now st =
    settle call (Fulfilled (VStr t))
      (emitThreadStarted now t
         (flushThreadNotification now t
            (set_threadContexts
               (<[t := Build_ThreadContext (default t (wc_sessionId ctx))
                                           (workspaceRoot ctx)]>
                  (threadContexts st)) st))).
Proof.
  intros Ht. unfold createThread_afterRpc, async, bind, modify, ret.
  rewrite Ht. reflexivity.
Qed.

(** Registering a context and announcing the thread: one announcement
    unless the thread was announced before, whether or not the peer's own
    notification was waiting. *)
Lemma register_announces now t c st0 :
  t ≠ [] →
  let st' :=
    emitThreadStarted now t
      (flushThreadNotification now t
         (set_threadContexts (<[t := c]> (threadContexts st0)) st0)) in
  emitted st' =
    emitted st0 ++ (if bool_decide (t ∈ seenThreads st0) then []
                    else [thread_started_event now (tc_sessionId c) t]) ∧
  (t ∈ seenThreads st') ∧ (t ∉ pendingThreadNotifications st') ∧
  threadContexts st' = <[t := c]> (threadContexts st0) ∧
  outbox st' = outbox st0 ∧ settled st' = settled st0 ∧
  pendingRequests st' = pendingRequests st0 ∧ jobs st' = jobs st0.
Proof.
  intros Hne. unfold flushThreadNotification, emitThreadStarted, emitEvent,
    resolveSessionId, session_of_thread, thread_started_event.
  simpl.
  repeat (case_bool_decide; simpl; try done);
    rewrite ?lookup_insert_eq; simpl; rewrite ?app_nil_r;
    split_and!; try done;
    rewrite ?elem_of_union, ?elem_of_singleton, ?elem_of_difference;
    try tauto;
    try (intros [_ Hc]; by apply Hc, elem_of_singleton);
    try (exfalso; simpl in *;
         match goal with
         | H : ?x ∉ {[?x]} ∪ _ |- _ => by apply H, elem_of_union_l, elem_of_singleton
         end).
Qed.

(** [createThread] called in a ready state with an empty job queue, its call
    written and then answered by the peer: the state in which it resumes. *)
Lemma createThread_answered st call ctx msg n1 n2 n3 :
  ids_inv st → ready st = ReadyResolved → stdin_writable st = true →
  jobs st = [] →
  is_response msg → msg ?> "id" = VNum (nextId st) →
  run st [(CreateThread call ctx, n1); (Job, n2); (Line (Some msg), n3)] =
    set_jobs
      [JAfterRpc (KCreateThread call ctx)
         (response_settlement msg (js "thread/start"))]
      (set_outbox (outbox st ++ [thread_start_request (config st) ctx (nextId st)])
         (set_nextId (nextId st + 1)%Z st)).
Proof.
  intros Hinv Hr Hw Hj Hresp Hid.
  match goal with |- context [run st [?a; ?b; ?c]] =>
    change (run st [a; b; c]) with (step (step (step st a) b) c) end.
  change (step st (CreateThread call ctx, n1)) with (createThread call ctx st).
  unfold createThread. rewrite await_ready_resolved by done.
  rewrite (step_job _ (JAfterReady (OpCreateThread call ctx) None) [] n2)
    by (unfold enqueue; simpl; by rewrite Hj).
  cbn [run_job].
  rewrite createThread_afterReady_sent by done.
  match goal with |- context [rpc_sent ?m ?p ?k ?s] =>
    replace (rpc_sent m p k s) with (rpc_sent m p k (set_jobs [] st))
      by (unfold enqueue; destruct st; reflexivity) end.
  rewrite call_answered;
    [| eapply ids_inv_frame; [..|exact Hinv]; reflexivity | done | done | done ].
  unfold enqueue. destruct st; reflexivity.
Qed.

(** X4: [createThread] called on a ready transport with an empty job queue
    writes one [thread/start] call; once the peer answers it with a thread
    id [t] the promise fulfils with [t], the context of [t] is recorded
    (under the caller's session id, else under [t]), the thread is announced
    once unless it was announced before, and nothing stays pending. *)
Theorem createThread_round_trip st call ctx result t n1 n2 n3 n4 :
  ids_inv st → ready st = ReadyResolved → stdin_writable st = true →
  jobs st = [] →
  truthy_string (result ?> "thread" ?> "id") = Some t →
  let st' :=
    run st [(CreateThread call ctx, n1); (Job, n2);
            (Line (Some (result_response (nextId st) result)), n3);
            (Job, n4)] in
  let session := default t (wc_sessionId ctx) in
  outbox st' = outbox st ++ [thread_start_request (config st) ctx (nextId st)] ∧
  settled st' = settled st ++ [(call, Fulfilled (VStr t))] ∧
  threadContexts st' =
    <[t := Build_ThreadContext session (workspaceRoot ctx)]>
      (threadContexts st) ∧
  emitted st' =
    emitted st ++ (if bool_decide (t ∈ seenThreads st) then []
                   else [thread_started_event n4 session t]) ∧
  (t ∈ seenThreads st') ∧ (t ∉ pendingThreadNotifications st') ∧
  pendingRequests st' = pendingRequests st ∧ jobs st' = [].
Proof.
  intros Hinv Hr Hw Hj Ht st' session. subst st'.
  assert (Hne : t ≠ []) by (by eapply truthy_string_nonempty).
  match goal with |- context [run st [?a; ?b; ?c; ?d]] =>
    change (run st [a; b; c; d]) with (step (run st [a; b; c]) d) end.
  rewrite createThread_answered;
    [|done|done|done|done|apply is_response_result|reflexivity].
  erewrite step_job; [|reflexivity].
  cbn [run_job]. rewrite response_settlement_result.
  rewrite (createThread_afterRpc_ok _ _ _ _ t) by done.
  match goal with |- context [emitThreadStarted n4 t (flushThreadNotification n4 t
                               (set_threadContexts (<[t := ?c]> _) ?s0))] =>
    pose proof (register_announces n4 t c s0 Hne) as HR; cbv zeta in HR;
    set (S := emitThreadStarted n4 t
                (flushThreadNotification n4 t
                   (set_threadContexts (<[t := c]> (threadContexts s0)) s0)))
      in * end.
  destruct HR as (E1 & E2 & E3 & E4 & E5 & E6 & E7 & E8). clearbody S.
  unfold settle. simpl. rewrite E1, E4, E5, E6, E7, E8. simpl.
  split_and!; done.
Qed.

Lemma createThread_round_trip_witness :
  settled
    (run ready_transport
       [(CreateThread 0 workspace, noon); (Job, noon);
        (Line (Some (thread_start_result 2 (js "th-1"))), noon);
        (Job, noon)])
  = [(0%nat, Fulfilled (VStr (js "th-1")))].
Proof.
  pose proof (createThread_round_trip ready_transport 0 workspace
                (obj [("thread", obj [("id", VStr (js "th-1"))])])
                (js "th-1") noon noon noon noon) as H.
  destruct H as (_ & H & _).
  - apply (ids_inv_reachable no_options [(Line (Some initialize_result), noon)]).
  - vm_compute. reflexivity.
  - vm_compute. reflexivity.
  - vm_compute. reflexivity.
  - vm_compute. reflexivity.
  - vm_compute in H. vm_compute. exact H.
Defined.



Lemma sendUserMessage_afterReady_sent call t text atts st :
  stdin_writable st = true →
  sendUserMessage_afterReady call t text atts None st =
    set_pendingRequests
      (table_set (nextId st)
         {| pr_cont := KSendUserMessage call t; pr_method := js "turn/start" |}
         (pendingRequests st))
      (set_outbox (outbox st ++ [turn_start_request st t text atts])
                  (set_nextId (nextId st + 1)%Z st)).
Proof.
  intros Hw. unfold sendUserMessage_afterReady, async, bind, gets, ret.
  cbv beta. by rewrite rpc_writable.
Qed.

Lemma sendUserMessage_answered st call t text atts msg n1 n2 n3 :
  ids_inv st → ready st = ReadyResolved → stdin_writable st = true →
  jobs st = [] →
  is_response msg → msg ?> "id" = VNum (nextId st) →
  run st [(SendUserMessage call t text atts, n1); (Job, n2);
          (Line (Some msg), n3)] =
    set_jobs
      [JAfterRpc (KSendUserMessage call t)
         (response_settlement msg (js "turn/start"))]
      (set_outbox (outbox st ++ [turn_start_request st t text atts])
         (set_nextId (nextId st + 1)%Z st)).
Proof.
  intros Hinv Hr Hw Hj Hresp Hid.
  match goal with |- context [run st [?a; ?b; ?c]] =>
    change (run st [a; b; c]) with (step (step (step st a) b) c) end.
  change (step st (SendUserMessage call t text atts, n1))
    with (sendUserMessage call t text atts st).
  unfold sendUserMessage. rewrite await_ready_resolved by done.
  rewrite (step_job _ (JAfterReady (OpSendUserMessage call t text atts) None) [] n2)
    by (unfold enqueue; simpl; by rewrite Hj).
  cbn [run_job].
  rewrite sendUserMessage_afterReady_sent by done.
  match goal with |- context [set_pendingRequests ?tb (set_outbox ?o (set_nextId ?n ?s))] =>
    change (set_pendingRequests tb (set_outbox o (set_nextId n s)))
      with (rpc_sent (js "turn/start")
              (VObj [(js "threadId", VStr t);
                     (js "cwd", of_opt (tc_cwd <$> threadContexts st !! t));
                     (js "input",
                       VArr (text_part text :: (file_part <$> default [] atts)))])
              (KSendUserMessage call t) s) end.
  match goal with |- context [rpc_sent ?m ?p ?k ?s] =>
    replace (rpc_sent m p k s) with (rpc_sent m p k (set_jobs [] st))
      by (unfold enqueue; destruct st; reflexivity) end.
  rewrite call_answered;
    [| eapply ids_inv_frame; [..|exact Hinv]; reflexivity | done | done | done ].
  unfold enqueue. destruct st; reflexivity.
Qed.

(** X6: [sendUserMessage] called on a ready transport writes one
    [turn/start] call whose input is the text followed by one part per
    attachment; once the peer answers with a turn id [u] the promise
    fulfils with [u] and [u] is indexed to the thread, so that what names
    only turn [u] resolves to the thread's session (to the thread id when
    it has no context).  No event is emitted. *)
Theorem sendUserMessage_round_trip st call t text atts result u n1 n2 n3 n4 :
  ids_inv st → ready st = ReadyResolved → stdin_writable st = true →
  jobs st = [] →
  truthy_string (result ?> "turn" ?> "id") = Some u →
  let st' :=
    run st [(SendUserMessage call t text atts, n1); (Job, n2);
            (Line (Some (result_response (nextId st) result)), n3);
            (Job, n4)] in
  outbox st' = outbox st ++ [turn_start_request st t text atts] ∧
  settled st' = settled st ++ [(call, Fulfilled (VStr u))] ∧
  turnToThread st' = <[u := t]> (turnToThread st) ∧
  resolveSessionId st' None (Some u) =
    default t (session_of_thread st (Some t)) ∧
  emitted st' = emitted st ∧ threadContexts st' = threadContexts st ∧
  pendingRequests st' = pendingRequests st ∧ jobs st' = [].
Proof.
  intros Hinv Hr Hw Hj Hu st'. subst st'.
  assert (Hne : u ≠ []) by (by eapply truthy_string_nonempty).
  match goal with |- context [run st [?a; ?b; ?c; ?d]] =>
    change (run st [a; b; c; d]) with (step (run st [a; b; c]) d) end.
  rewrite sendUserMessage_answered;
    [|done|done|done|done|apply is_response_result|reflexivity].
  erewrite step_job; [|reflexivity].
  cbn [run_job]. rewrite response_settlement_result.
  unfold sendUserMessage_afterRpc, async, bind, modify, ret. rewrite Hu.
  unfold settle. simpl. split_and!; try done.
  unfold resolveSessionId. simpl.
  rewrite bool_decide_eq_false_2 by done. simpl.
  rewrite lookup_insert_eq. simpl.
  destruct (bool_decide (t = [])); [done|].
  by destruct (threadContexts st !! t).
Qed.

Lemma sendUserMessage_round_trip_witness :
  let st' :=
    run ready_transport
      [(SendUserMessage 0 (js "th-1") (js "hello") (Some [js "/work/a.txt"]), noon);
       (Job, noon);
       (Line (Some (result_response 2 (obj [("turn", obj [("id", VStr (js "tu-1"))])]))),
        noon);
       (Job, noon)] in
  settled st' = [(0%nat, Fulfilled (VStr (js "tu-1")))] ∧
  resolveSessionId st' None (Some (js "tu-1")) = js "th-1".
Proof.
  pose proof (sendUserMessage_round_trip ready_transport 0 (js "th-1")
                (js "hello") (Some [js "/work/a.txt"])
                (obj [("turn", obj [("id", VStr (js "tu-1"))])])
                (js "tu-1") noon noon noon noon) as H.
  destruct H as (_ & H1 & _ & H2 & _).
  - apply (ids_inv_reachable no_options [(Line (Some initialize_result), noon)]).
  - vm_compute. reflexivity.
  - vm_compute. reflexivity.
  - vm_compute. reflexivity.
  - vm_compute. reflexivity.
  - split; [vm_compute in H1; vm_compute; exact H1
           |vm_compute in H2; vm_compute; exact H2].
Defined.



(** *** Strings *)

Lemma startsWith_spec s p : startsWith s p = true ↔ ∃ r, s = p ++ r.
Proof.
  revert s. induction p as [|c p IH]; intros s; simpl.
  - split; [intros _; by exists s | intros _; by destruct s].
  - destruct s as [|d s]; simpl.
    + split; [done | intros [r Hr]; discriminate].
    + rewrite andb_true_iff, bool_decide_eq_true, IH. split.
      * intros [-> [r ->]]. by exists r.
      * intros [r [= -> ->]]. split; [done | by exists r].
Qed.

Lemma includes_spec s p : includes s p = true ↔ ∃ a b, s = a ++ p ++ b.
Proof.
  induction s as [|d s IH].
  - destruct p as [|c p]; simpl.
    + split; [intros _; by exists [], [] | done].
    + split; [done | intros ([|x a] & b & H); discriminate].
  - change (includes (d :: s) p) with (startsWith (d :: s) p || includes s p).
    rewrite orb_true_iff, startsWith_spec, IH. split.
    + intros [[r Hr] | (a & b & ->)]; [by exists [], r | by exists (d :: a), b].
    + intros ([|x a] & b & H); simpl in H.
      * left. by exists b.
      * injection H as -> ->. right. by exists a, b.
Qed.

(** X8: the decision sent to the peer is "accept" exactly for the decisions
    whose name begins with "approve". *)
Theorem mapDecision_accept_iff decision :
  mapDecision decision = accept ↔ ∃ rest, decision = js "approve" ++ rest.
Proof.
  unfold mapDecision. rewrite <- startsWith_spec.
  destruct (startsWith decision (js "approve")); split; done.
Qed.

(** *** Request-backed approvals *)






(** *** What a reaction may change *)

Ltac unfold_all :=
  unfold_handlers;
  unfold handleNotification, handleCodexEvent, emitApprovalRequest,
    flushThreadNotification, emitThreadStarted, emitEvent, enqueue, settle,
    readyResolve, readyReject.

(** Case analysis of one reaction: the goal, a property of [step st i], is
    kept folded while the handlers are taken apart. *)
Ltac step_cases :=
  match goal with
  | |- context [step ?st ?i] =>
      pattern (step st i);
      let P := fresh "P" in
      match goal with |- ?Q _ => set (P := Q) end;
      destruct i as [i now]; destruct i; simpl;
      [ | | | |
        destruct (jobs st) as [|j rest] eqn:?;
        [|destruct j as [[]|[]]; simpl]
      | | | | ];
      unfold_all; simpl; repeat (case_match; simplify_eq; simpl);
      subst P; cbv beta; simpl
  end.

Ltac evolves_leaf :=
  split_and!;
  [ repeat first [reflexivity | apply prefix_app_r]
  | repeat first [reflexivity | apply prefix_app_r]
  | repeat first [reflexivity | apply prefix_app_r]
  | intros ? ?; rewrite ?lookup_insert_is_Some'; auto
  | intros ? ?; rewrite ?lookup_insert_is_Some'; auto
  | first [ reflexivity
          | apply union_subseteq_r
          | etrans; [apply union_subseteq_r | apply union_subseteq_r] ]
  | lia
  | reflexivity
  | let H := fresh in
    intros H; simpl in *;
    first [congruence | exfalso; eapply H; eassumption]
  | let H := fresh in intros H; simpl in *; split; congruence ].

Lemma evolves_step st i : evolves st (step st i).
Proof.
  step_cases; unfold evolves, extends, remembers, settles_once; simpl;
    evolves_leaf.
Qed.

Lemma evolves_run trace : ∀ st, evolves st (run st trace).
Proof.
  induction trace as [|i trace IH]; intros st.
  - unfold evolves, extends, remembers, settles_once. by split_and!.
  - destruct (evolves_step st i)
      as ((A1 & A2 & A3) & (B1 & B2 & B3 & B4 & B5) & C1 & C2).
    destruct (IH (step st i))
      as ((D1 & D2 & D3) & (E1 & E2 & E3 & E4 & E5) & F1 & F2).
    change (run st (i :: trace)) with (run (step st i) trace).
    unfold evolves, extends, remembers, settles_once.
    split_and!.
    + by etrans.
    + by etrans.
    + by etrans.
    + intros t Ht. by apply E1, B1.
    + intros u Hu. by apply E2, B2.
    + by etrans.
    + lia.
    + congruence.
    + intros Hr. rewrite F1; [by apply C1|]. intros ws. rewrite C1 by done.
      apply Hr.
    + intros Hw. destruct (C2 Hw) as [Hw' Ho]. destruct (F2 Hw') as [? ?].
      split; congruence.
Qed.


(** X11: thread contexts, turn owners and announced threads are never
    forgotten, the id counter never goes back, and the configuration is
    fixed at construction. *)
Theorem identities_never_forgotten st trace :
  let st' := run st trace in
  (∀ t, is_Some (threadContexts st !! t) → is_Some (threadContexts st' !! t)) ∧
  (∀ u, is_Some (turnToThread st !! u) → is_Some (turnToThread st' !! u)) ∧
  seenThreads st ⊆ seenThreads st' ∧
  (nextId st ≤ nextId st')%Z ∧
  config st' = config st.
Proof. apply evolves_run. Qed.

(** X12: once readiness has failed it stays failed, and every operation
    gated on it is rejected with the same error, writing nothing. *)
Theorem failed_readiness_is_final st trace m call ctx t text atts n1 n2 :
  ready st = ReadyRejected m →
  let st' := run st trace in
  ready st' = ReadyRejected m ∧
  (jobs st' = [] →
   run st' [(CreateThread call ctx, n1); (Job, n2)]
     = settle call (Rejected m) st' ∧
   run st' [(SendUserMessage call t text atts, n1); (Job, n2)]
     = settle call (Rejected m) st' ∧
   run st' [(Cancel call t, n1); (Job, n2)]
     = settle call (Rejected m) st').
Proof.
  intros Hr st'.
  assert (Hr' : ready st' = ReadyRejected m).
  { destruct (evolves_run trace st) as (_ & _ & H & _).
    fold st' in H. rewrite H; [done|]. intros ws. by rewrite Hr. }
  split; [done|]. clearbody st'. intros Hj.
  unfold run. simpl. unfold createThread, sendUserMessage, cancel, await_ready.
  rewrite Hr'. simpl. rewrite Hj. simpl.
  unfold createThread_afterReady, sendUserMessage_afterReady, cancel_afterReady,
    async, throw, settle. simpl.
  destruct st'; simpl in *; subst; done.
Qed.

Lemma failed_readiness_is_final_witness :
  settled (run failed_handshake
             [(Line (Some initialize_result), noon);
              (CreateThread 0 workspace, noon); (Job, noon)])
  = [(0%nat, Rejected (js "unsupported client"))].
Proof.
  pose proof (failed_readiness_is_final failed_handshake
                [(Line (Some initialize_result), noon)]
                (js "unsupported client") 0 workspace [] [] None noon noon) as H.
  destruct H as (_ & H); [vm_compute; reflexivity|].
  destruct H as (H & _); [vm_compute; reflexivity|].
  apply (f_equal settled) in H. vm_compute in H. vm_compute. exact H.
Defined.

(** X13: once the peer's stdin is closed nothing is written any more. *)
Theorem closed_stdin_is_final st trace :
  stdin_writable st = false →
  stdin_writable (run st trace) = false ∧ outbox (run st trace) = outbox st.
Proof.
  intros Hw. destruct (evolves_run trace st) as (_ & _ & _ & H). by apply H.
Qed.

Lemma closed_stdin_is_final_witness :
  outbox (run (set_stdin_writable false ready_transport)
            [(CreateThread 0 workspace, noon); (Job, noon);
             (Line (Some (approval_call 7)), noon);
             (RespondApproval 1 (js "7") (js "approve_once"), noon)])
  = outbox (set_stdin_writable false ready_transport).
Proof. apply closed_stdin_is_final. reflexivity. Defined.

(** X14: with the peer's stdin closed, [createThread] and [sendUserMessage]
    reject with the writer's error and [cancel] fulfils, each after taking
    an id and registering nothing; a decision on a request-backed approval
    rejects and keeps the ticket, one on a notification-backed approval
    fulfils silently. *)
Theorem closed_stdin_outcomes st call ctx t text atts id d n1 n2 :
  stdin_writable st = false → ready st = ReadyResolved → jobs st = [] →
  let consumed := set_nextId (nextId st + 1)%Z st in
  run st [(CreateThread call ctx, n1); (Job, n2)]
    = settle call (Rejected not_writable) consumed ∧
  run st [(SendUserMessage call t text atts, n1); (Job, n2)]
    = settle call (Rejected not_writable) consumed ∧
  run st [(Cancel call t, n1); (Job, n2)]
    = settle call (Fulfilled VUndef) consumed ∧
  (is_Some (pendingApprovals st !! id) →
   respondApproval call id d st = settle call (Rejected not_writable) st) ∧
  (pendingApprovals st !! id = None →
   is_Some (pendingNotificationApprovals st !! id) →
   respondApproval call id d st = settle call (Fulfilled VUndef) consumed).
Proof.
  intros Hw Hr Hj consumed. subst consumed.
  unfold run. simpl. unfold createThread, sendUserMessage, cancel, await_ready.
  rewrite Hr. simpl. rewrite Hj. simpl.
  unfold createThread_afterReady, sendUserMessage_afterReady, cancel_afterReady,
    respondApproval, async, try_catch, bind, gets, ret.
  cbv beta. rewrite !rpc_closed by done.
  split_and!.
  - unfold settle. destruct st; simpl in *; subst; done.
  - unfold settle. destruct st; simpl in *; subst; done.
  - unfold settle. destruct st; simpl in *; subst; done.
  - intros [r Hp]. rewrite Hp. unfold send, modify. simpl. by rewrite Hw.
  - intros Hp [x Hx]. rewrite Hp, Hx. by rewrite rpc_closed.
Qed.

Lemma closed_stdin_outcomes_witness :
  settled (run (set_stdin_writable false ready_transport)
             [(CreateThread 0 workspace, noon); (Job, noon)])
  = [(0%nat, Rejected not_writable)].
Proof.
  pose proof (closed_stdin_outcomes (set_stdin_writable false ready_transport)
                0 workspace [] [] None [] [] noon noon) as H.
  destruct H as (H & _); [reflexivity | vm_compute; reflexivity
                         | vm_compute; reflexivity |].
  apply (f_equal settled) in H. vm_compute in H. vm_compute. exact H.
Defined.

(** *** Streaming text *)

Lemma agent_delta_step st now t u i d :
  t ≠ [] → u ≠ [] → i ≠ [] → d ≠ [] →
  step st (Line (Some (agent_delta t u i d)), now) =
    emitEvent (agent_delta_event st now t u i d)
      (set_agentMessageBuffers
         (<[i := default [] (agentMessageBuffers st !! i) ++ d]>
            (agentMessageBuffers st)) st).
Proof.
  intros Ht Hu Hi Hd. rewrite step_line.
  unfold handleLine, agent_delta, notification, modify. simpl.
  unfold handleNotification. simpl. unfold truthy_string.
  rewrite !bool_decide_eq_false_2 by done. reflexivity.
Qed.

Lemma agent_completed_step st now t u i :
  t ≠ [] → u ≠ [] → i ≠ [] →
  agentMessageBuffers (step st (Line (Some (agent_completed t u i)), now))
  = delete i (agentMessageBuffers st).
Proof.
  intros Ht Hu Hi. rewrite step_line.
  unfold handleLine, agent_completed, notification, modify. simpl.
  unfold handleNotification. simpl. unfold truthy_string.
  rewrite !bool_decide_eq_false_2 by done. reflexivity.
Qed.

Lemma agent_deltas_run t u i now ds :
  t ≠ [] → u ≠ [] → i ≠ [] → Forall (fun d => d ≠ []) ds →
  ∀ st,
    let st' :=
      run st ((fun d => (Line (Some (agent_delta t u i d)), now)) <$> ds) in
    agentMessageBuffers st' !! i
      = (if bool_decide (ds = []) then agentMessageBuffers st !! i
         else Some (default [] (agentMessageBuffers st !! i) ++ concat ds)) ∧
    emitted st' =
      emitted st ++ ((fun d => agent_delta_event st now t u i d) <$> ds) ∧
    threadContexts st' = threadContexts st.
Proof.
  intros Ht Hu Hi Hall. induction Hall as [|d ds Hd Hall IH]; intros st.
  - simpl. by rewrite app_nil_r.
  - cbn [fmap list_fmap run fold_left].
    change (fold_left step ?l ?s) with (run s l).
    rewrite agent_delta_step by done.
    match goal with |- context [run ?s _] =>
      destruct (IH s) as (IH1 & IH2 & IH3) end.
    cbv zeta in IH1, IH2, IH3. rewrite IH1, IH2, IH3. simpl.
    rewrite lookup_insert_eq. simpl.
    split_and!; [| |done].
    + case_bool_decide; [subst; simpl; by rewrite app_nil_r|].
      by rewrite <- app_assoc.
    + by rewrite <- app_assoc.
Qed.

(** X15: the deltas of an agent message are buffered in order under its
    item id, and the buffer is dropped when the item completes. *)
Theorem agentMessage_buffer st t u i ds now :
  t ≠ [] → u ≠ [] → i ≠ [] → ds ≠ [] → Forall (fun d => d ≠ []) ds →
  let st' := run st ((fun d => (Line (Some (agent_delta t u i d)), now)) <$> ds) in
  agentMessageBuffers st' !! i
    = Some (default [] (agentMessageBuffers st !! i) ++ concat ds) ∧
  emitted st' =
    emitted st ++ ((fun d => agent_delta_event st now t u i d) <$> ds) ∧
  agentMessageBuffers (step st' (Line (Some (agent_completed t u i)), now)) !! i
    = None.
Proof.
  intros Ht Hu Hi Hds Hall st'.
  destruct (agent_deltas_run t u i now ds Ht Hu Hi Hall st) as (H1 & H2 & _).
  fold st' in H1, H2. rewrite bool_decide_eq_false_2 in H1 by done.
  split_and!; [done|done|].
  rewrite agent_completed_step by done. apply lookup_delete_eq.
Qed.

Lemma agentMessage_buffer_witness :
  agentMessageBuffers
    (run ready_transport
       [(Line (Some (agent_delta (js "th-1") (js "tu-1") (js "it-1") (js "Hel"))), noon);
        (Line (Some (agent_delta (js "th-1") (js "tu-1") (js "it-1") (js "lo"))), noon)])
    !! js "it-1" = Some (js "Hello").
Proof.
  pose proof (agentMessage_buffer ready_transport (js "th-1") (js "tu-1")
                (js "it-1") [js "Hel"; js "lo"] noon) as H.
  destruct H as (H & _); [done|done|done|done| |exact H].
  by repeat constructor.
Defined.

(** *** The buffered text is never read back *)

Lemma without_buffers_step st i :
  without_buffers (step st i) = without_buffers (step (without_buffers st) i).
Proof.
  unfold without_buffers.
  destruct i as [i now]; destruct i; simpl;
    [ | | | | destruct (jobs st) as [|j rest] eqn:?;
              [|destruct j as [[]|[]]; simpl] | | | | ];
    unfold_all; simpl; repeat (case_match; simplify_eq; simpl);
    try reflexivity; try (exfalso; simpl in *; congruence).
Qed.

Lemma without_buffers_run trace : ∀ s1 s2,
  without_buffers s1 = without_buffers s2 →
  without_buffers (run s1 trace) = without_buffers (run s2 trace).
Proof.
  induction trace as [|i trace IH]; intros s1 s2 H; [done|].
  change (run ?s (i :: trace)) with (run (step s i) trace).
  apply IH. rewrite (without_buffers_step s1), (without_buffers_step s2).
  by rewrite H.
Qed.

(** X16: the text buffered per agent message is never read back: whatever the
    buffers hold, a trace yields the same events, the same writes to the
    peer, the same outcomes and the same other fields. *)
Theorem buffers_never_read st buffers trace :
  let st1 := run st trace in
  let st2 := run (set_agentMessageBuffers buffers st) trace in
  without_buffers st2 = without_buffers st1 ∧
  emitted st2 = emitted st1 ∧ outbox st2 = outbox st1 ∧
  settled st2 = settled st1.
Proof.
  intros st1 st2.
  assert (H : without_buffers st2 = without_buffers st1)
    by (by apply without_buffers_run).
  split; [done|].
  split_and!;
    [ apply (f_equal emitted) in H | apply (f_equal outbox) in H
    | apply (f_equal settled) in H ]; exact H.
Qed.

(** *** Identity extraction *)

Lemma js_or_falsy a b : truthy a = false → (a ||| b) = b.
Proof. intros H. unfold js_or. by rewrite H. Qed.

Lemma js_or_truthy a b : truthy a = true → (a ||| b) = a.
Proof. intros H. unfold js_or. by rewrite H. Qed.

Lemma truthy_not_nullish v : truthy v = true → nullish v = false.
Proof. by destruct v. Qed.

(** X17: no thread id is resolved exactly when the first five candidate
    fields are falsy and the last is null or absent; likewise for the turn
    id with its five candidates.  A falsy last candidate that is not null,
    such as 0 or the empty string, is returned as its string. *)
Theorem resolve_ids_none_iff params :
  (resolveThreadId params = None ↔
     truthy (params ?> "threadId") = false ∧
     truthy (params ?> "thread_id") = false ∧
     truthy (params ?> "thread" ?> "id") = false ∧
     truthy (params ?> "conversationId") = false ∧
     truthy (params ?> "item" ?> "threadId") = false ∧
     nullish (params ?> "item" ?> "thread_id") = true) ∧
  (resolveTurnId params = None ↔
     truthy (params ?> "turnId") = false ∧
     truthy (params ?> "turn_id") = false ∧
     truthy (params ?> "turn" ?> "id") = false ∧
     truthy (params ?> "item" ?> "turnId") = false ∧
     nullish (params ?> "item" ?> "turn_id") = true).
Proof.
  assert (Hn : ∀ v, truthy v = true → nullish v = true → False)
    by (by intros []).
  unfold resolveThreadId, resolveTurnId, js_or.
  split; (split; [intros H | intros (?&?&?&?&?)]);
    repeat (case_match; simplify_eq);
    try (exfalso; eapply Hn; eassumption);
    try intuition congruence.
Qed.

(** *** Execution contexts *)

Lemma codex_identity_guard params t u :
  codex_identity params = Some (t, u) →
  ∃ t0, opt_or (resolveThreadId params) (resolveThreadId (codex_msg params)) = Some t0 ∧
        t0 = t ∧
        (match opt_or (resolveTurnId params) (resolveTurnId (codex_msg params)) with
         | Some u0 => u0
         | None => toString (params ?> "id" ?? VStr [])
         end) = u ∧
        bool_decide (t = []) || bool_decide (u = []) = false.
Proof.
  unfold codex_identity.
  destruct (opt_or (resolveThreadId params) _) as [t0|]; [|done].
  destruct (_ || _) eqn:Hg; [done|]. intros [= <- <-]. by exists t0.
Qed.

Lemma exec_begin_table params now st t u :
  codex_identity params = Some (t, u) →
  ∃ x, commandExecutions (handleCodexEvent exec_begin params now st)
       = <[callId_of (codex_msg params) := x]> (commandExecutions st) ∧
       ce_threadId x = Some t ∧ ce_turnId x = Some u.
Proof.
  intros (t0 & H1 & -> & H2 & H3)%codex_identity_guard.
  unfold handleCodexEvent. fold (codex_msg params). rewrite H1, H2, H3.
  rewrite (bool_decide_eq_true_2 (exec_begin = _)) by done.
  eexists. split; [reflexivity|]. done.
Qed.

Lemma exec_end_table params now st :
  is_Some (codex_identity params) →
  commandExecutions (handleCodexEvent exec_end params now st)
    = delete (callId_of (codex_msg params)) (commandExecutions st) ∧
  threadContexts (handleCodexEvent exec_end params now st) = threadContexts st ∧
  turnToThread (handleCodexEvent exec_end params now st) = turnToThread st.
Proof.
  intros [[t u] (t0 & H1 & -> & H2 & H3)%codex_identity_guard].
  unfold handleCodexEvent. fold (codex_msg params). rewrite H1, H2, H3.
  rewrite (bool_decide_eq_false_2 (exec_end = _)) by js_neq.
  rewrite (bool_decide_eq_false_2 (exec_end = _)) by js_neq.
  rewrite (bool_decide_eq_true_2 (exec_end = _)) by done.
  done.
Qed.

(** X18: the execution context of a call lives from its begin to its
    addressed end: after such an end the table is as before the begin and a
    later chunk for the call carries its own thread and turn; an end that
    names no thread or turn is dropped, and a later chunk still carries the
    identity captured at the begin. *)
Theorem exec_context_lifecycle st pb pe pd nb ne nd c t u t' u' :
  codex_identity pb = Some (t, u) → callId_of (codex_msg pb) = c →
  callId_of (codex_msg pe) = c →
  callId_of (codex_msg pd) = c → codex_identity pd = Some (t', u') →
  decodeChunk (chunk_of pd) ≠ [] →
  let st1 := handleCodexEvent exec_begin pb nb st in
  let st2 := handleCodexEvent exec_end pe ne st1 in
  let st3 := handleCodexEvent exec_output_delta pd nd st2 in
  match codex_identity pe with
  | Some _ =>
      commandExecutions st2 = delete c (commandExecutions st) ∧
      emitted st3 = emitted st2 ++ [delta_event st2 pd nd t' u']
  | None =>
      st2 = st1 ∧
      emitted st3 = emitted st2 ++ [delta_event st2 pd nd t u]
  end.
Proof.
  intros Hb Hcb Hce Hcd Hd Hchunk st1 st2 st3.
  destruct (exec_begin_table pb nb st t u Hb) as (x & Hx & Hxt & Hxu).
  fold st1 in Hx. rewrite Hcb in Hx.
  assert (E3 : ∀ s, emitted (handleCodexEvent exec_output_delta pd nd s) =
                    emitted s ++
                    [delta_event s pd nd
                       (default t' (commandExecutions s !! c ≫= ce_threadId))
                       (default u' (commandExecutions s !! c ≫= ce_turnId))]).
  { intros s. rewrite (handleCodexEvent_output_delta _ _ _ _ _ Hd). simpl.
    rewrite bool_decide_eq_false_2 by done. by rewrite Hcd. }
  destruct (codex_identity pe) as [id|] eqn:He.
  - destruct (exec_end_table pe ne st1) as (H1 & _); [by rewrite He|].
    fold st2 in H1. rewrite Hce, Hx, delete_insert_eq in H1.
    split; [done|]. subst st3. rewrite E3, H1, lookup_delete_eq. done.
  - assert (E2 : st2 = st1) by (by apply handleCodexEvent_dropped).
    split; [done|]. subst st3. rewrite E3, E2, Hx, lookup_insert_eq. simpl.
    by rewrite Hxt, Hxu.
Qed.

Lemma exec_context_lifecycle_witness :
  let st1 := handleCodexEvent exec_begin begin_params noon ready_transport in
  let st2 := handleCodexEvent exec_end end_other_ids noon st1 in
  let st3 := handleCodexEvent exec_output_delta delta_hi noon st2 in
  commandExecutions st2 = delete (js "call-1") (commandExecutions ready_transport) ∧
  emitted st3 = emitted st2 ++ [delta_event st2 delta_hi noon (js "th-1") (js "7")].
Proof.
  apply (exec_context_lifecycle ready_transport begin_params end_other_ids
           delta_hi noon noon noon (js "call-1") (js "th-1") (js "tu-1")
           (js "th-1") (js "7"));
    try (vm_compute; reflexivity).
  vm_compute. discriminate.
Defined.

(** *** Handshake *)

Lemma handshake_inv_step st i : handshake_inv st → handshake_inv (step st i).
Proof.
  intros (sent & Ho & Hf). step_cases; unfold handshake_inv; simpl;
    rewrite Ho;
    first [ by exists sent
          | eexists; split; [simpl; reflexivity|];
            apply Forall_app; split; [assumption|];
            constructor; [vm_compute; reflexivity | constructor] ].
Qed.

Lemma handshake_inv_constructor opts : handshake_inv (constructor opts).
Proof. exists []. split; [reflexivity | constructor]. Qed.

(** X19: the handshake is started once: in every reachable state the first
    message written to the peer is the [initialize] call with id 1, and no
    later message is an [initialize]. *)
Theorem initialize_sent_once opts trace :
  ∃ rest, outbox (run (constructor opts) trace) = initialize_request :: rest ∧
          Forall (fun m => is_initialize m = false) rest.
Proof.
  apply (run_invariant handshake_inv);
    [apply handshake_inv_step | apply handshake_inv_constructor].
Qed.

(** X20: after the handshake, a response whose id is [null] and that carries
    no error is taken for the handshake's: [initialized] is sent again. *)
Theorem null_id_response_after_handshake st msg now :
  is_response msg → msg ?> "id" = VNull → truthy (msg ?> "error") = false →
  initRequestId st = None → ready st = ReadyResolved →
  stdin_writable st = true →
  step st (Line (Some msg), now) =
    set_outbox (outbox st ++ [initialized_message]) st.
Proof.
  intros (Hn & Hm & Hi) Hid He Hinit Hr Hw. rewrite step_line.
  rewrite handleLine_response by done.
  unfold handleResponse, bind, gets, modify, send, readyResolve.
  simpl. rewrite Hinit, Hid, He. simpl. rewrite Hw. simpl. rewrite Hr.
  destruct st; simpl in *; subst; reflexivity.
Qed.

Lemma null_id_response_after_handshake_witness :
  outbox (step ready_transport
            (Line (Some (obj [("id", VNull); ("result", obj [])])), noon))
  = outbox ready_transport ++ [initialized_message].
Proof.
  rewrite (null_id_response_after_handshake ready_transport
             (obj [("id", VNull); ("result", obj [])]) noon);
    try (vm_compute; reflexivity).
  split_and!; [discriminate | reflexivity | reflexivity].
Defined.

(** *** Lines that are not messages *)



(** *** The command text, in approvals and in execution items *)

Lemma join_ext sep (f g : value → jsstring) parts :
  Forall (fun x => f x = g x) parts →
  join sep (List.map f parts) = join sep (List.map g parts).
Proof.
  intros H. f_equal. induction H as [|x l Hx Hl IH]; [done|]. simpl.
  by rewrite Hx, IH.
Qed.

(** X22: for a command given as a string, or as an array without null or
    undefined elements, the text shown in an approval ([extractCommand])
    is the text of the execution item ([normalizeCommand]); a null element
    prints as nothing in the first and as "null" in the second. *)
Theorem command_text_agrees command :
  match command with
  | VArr parts => Forall (fun x => nullish x = false) parts
  | _ => True
  end →
  extractCommand (obj [("command", command)]) = normalizeCommand command.
Proof.
  intros H. unfold extractCommand, normalizeCommand.
  set (p := obj [("command", command)]).
  assert (E1 : p ?> "command" = command) by reflexivity.
  assert (E2 : p ?> "parsedCmd" ?> "cmd" = VUndef) by reflexivity.
  assert (E3 : p ?> "parsed_cmd" = VUndef) by reflexivity.
  assert (E4 : p ?> "item" ?> "command" = VUndef) by reflexivity.
  assert (E5 : p ?> "item" ?> "parsedCmd" ?> "cmd" = VUndef) by reflexivity.
  assert (E6 : p ?> "item" ?> "parsed_cmd" = VUndef) by reflexivity.
  rewrite E1, E2, E3, E4, E5, E6. clear E1 E2 E3 E4 E5 E6. clearbody p.
  destruct (truthy command) eqn:Ht.
  - rewrite !(js_or_truthy command) by done. rewrite Ht. simpl.
    destruct command; try done. unfold array_join. f_equal.
    apply join_ext. eapply Forall_impl; [exact H|]. simpl.
    intros x Hx. by rewrite Hx.
  - rewrite (js_or_falsy command) by done.
    rewrite !(js_or_falsy VUndef) by done. done.
Qed.

Lemma command_text_agrees_witness :
  extractCommand (obj [("command", VArr [VStr (js "ls"); VStr (js "-la")])])
  = normalizeCommand (VArr [VStr (js "ls"); VStr (js "-la")]) ∧
  extractCommand (obj [("command", VArr [VStr (js "ls"); VNull])])
  ≠ normalizeCommand (VArr [VStr (js "ls"); VNull]).
Proof.
  split.
  - apply command_text_agrees. by repeat constructor.
  - vm_compute. discriminate.
Defined.

(** ** The host around the transport *)

(** *** Transport factory *)

Lemma normalizeSandbox_string value :
  sandbox_string (normalizeSandbox value) =
    match value with
    | Some v => if sandbox_valid v then v else js "workspace-write"
    | None => js "workspace-write"
    end.
Proof.
  destruct value as [v|]; [|done]. unfold normalizeSandbox, sandbox_valid.
  repeat case_bool_decide; subst; done.
Qed.

(** X23: every [thread/start] a transport built by the factory writes names
    the sandbox of CODEX_SANDBOX when that is one of the three modes and
    "workspace-write" otherwise, with the model and approval policy of the
    environment or the factory's defaults. *)
Theorem createTransport_thread_start env st trace call ctx :
  createTransport env = CodexAppServerTransport st →
  let cur := run st trace in
  stdin_writable cur = true →
  ∃ params,
    outbox (createThread_afterReady call ctx None cur)
      = outbox cur ++ [rpc_request (js "thread/start") (nextId cur) params] ∧
    params ?> "sandbox" =
      VStr (match env "CODEX_SANDBOX" with
            | Some v => if sandbox_valid v then v else js "workspace-write"
            | None => js "workspace-write"
            end) ∧
    params ?> "model" = VStr (default (js "gpt-5.2-codex") (env "CODEX_MODEL")) ∧
    params ?> "approvalPolicy" =
      VStr (default (js "on-request") (env "CODEX_APPROVAL_POLICY")) ∧
    params ?> "cwd" = VStr (workspaceRoot ctx).
Proof.
  intros Hc cur Hw. unfold createTransport in Hc.
  destruct (_ || _); [discriminate|]. injection Hc as <-.
  assert (Hcfg : config cur = config (constructor
            {| opt_model := Some (default (js "gpt-5.2-codex") (env "CODEX_MODEL"));
               opt_sandbox := Some (normalizeSandbox (env "CODEX_SANDBOX"));
               opt_approvalPolicy :=
                 Some (default (js "on-request") (env "CODEX_APPROVAL_POLICY")) |})).
  { subst cur. match goal with |- context [run ?s trace] =>
      destruct (evolves_run trace s) as (_ & (_ & _ & _ & _ & H) & _) end.
    exact H. }
  rewrite createThread_afterReady_sent by done. rewrite Hcfg.
  eexists. split; [reflexivity|]. split_and!; try reflexivity.
  cbn. by rewrite normalizeSandbox_string.
Qed.

Lemma createTransport_thread_start_witness :
  ∃ st, createTransport
          (fun name => if String.eqb name "CODEX_SANDBOX"
                       then Some (js "full-access") else None)
        = CodexAppServerTransport st ∧
        ∃ params,
          outbox (createThread_afterReady 0 workspace None st)
            = outbox st ++ [rpc_request (js "thread/start") (nextId st) params] ∧
          params ?> "sandbox" = VStr (js "workspace-write").
Proof.
  eexists. split; [reflexivity|].
  match goal with |- context [createThread_afterReady _ _ _ ?s] =>
    destruct (createTransport_thread_start
                (fun name => if String.eqb name "CODEX_SANDBOX"
                             then Some (js "full-access") else None)
                s [] 0 workspace eq_refl eq_refl)
      as (params & H1 & H2 & _) end.
  exists params. split; [exact H1|]. rewrite H2. reflexivity.
Defined.

(** *** Timeline types *)

(** X24: of the events the transport emits, only the process-exit error is
    filed as an error and only approval requests as approval requests;
    thread and turn events are filed as tool calls, and nothing as a plan. *)
Theorem timeline_type_of_transport_events e :
  let ty := mapEventToTimelineType (type_string (ev_type e)) (ev_payload e) in
  (ty = tl_error ↔ ev_type e = error) ∧
  (ty = tl_approval_request ↔ ev_type e = approval_request) ∧
  (ev_type e = thread_started ∨ ev_type e = turn_started ∨
   ev_type e = turn_completed → ty = tl_tool_call) ∧
  ty ≠ tl_plan.
Proof.
  destruct e as [ty sid tid at_ p]. simpl.
  destruct ty; unfold mapEventToTimelineType; simpl;
    repeat case_match; split_and!; try split; try done;
    intuition discriminate.
Qed.

(** X25: what the transport emits for a command execution (its begin, its
    output chunks, its end) is filed as command output. *)
Theorem exec_events_are_command_output method params now st e :
  method = exec_begin ∨ method = exec_output_delta ∨ method = exec_end →
  e ∈ drop (length (emitted st)) (emitted (handleCodexEvent method params now st)) →
  mapEventToTimelineType (type_string (ev_type e)) (ev_payload e)
    = tl_command_output.
Proof.
  intros Hm. unfold handleCodexEvent.
  destruct Hm as [-> | [-> | ->]]; repeat (case_match; simplify_eq);
    unfold emitEvent; simpl;
    rewrite ?drop_app_length, ?drop_all;
    try (by intros ?%elem_of_nil);
    intros ->%list_elem_of_singleton; reflexivity.
Qed.

Lemma exec_events_are_command_output_witness :
  Forall (fun e => mapEventToTimelineType (type_string (ev_type e)) (ev_payload e)
                   = tl_command_output)
         (drop (length (emitted ready_transport))
               (emitted (handleCodexEvent exec_begin begin_params noon
                           ready_transport))).
Proof.
  apply Forall_forall. intros e.
  apply (exec_events_are_command_output exec_begin begin_params noon
           ready_transport e).
  by left.
Defined.

(** *** Permission rules *)

Lemma includes_occurs target p : includes target p = true ↔ occurs p target.
Proof. apply includes_spec. Qed.

Lemma evaluateRules_find rules target :
  match evaluateRules rules target with
  | (d, None) =>
      d = ask ∧ ∀ r, r ∈ rules → ¬ occurs (pattern r) target
  | (d, Some r) =>
      d = decision r ∧ occurs (pattern r) target ∧
      ∃ before after, rules = before ++ r :: after ∧
                      ∀ r', r' ∈ before → ¬ occurs (pattern r') target
  end.
Proof.
  unfold evaluateRules. induction rules as [|r rules IH]; simpl.
  - split; [done|]. intros r Hr. by apply elem_of_nil in Hr.
  - destruct (includes target (pattern r)) eqn:Hi.
    + split; [done|]. split; [by apply includes_occurs|].
      exists [], rules. split; [done|]. intros r' Hr'.
      by apply elem_of_nil in Hr'.
    + assert (Hno : ¬ occurs (pattern r) target).
      { intros Ho%includes_occurs. congruence. }
      destruct (find _ rules) as [m|].
      * destruct IH as (Hd & Ho & before & after & -> & Hb).
        split; [done|]. split; [done|]. exists (r :: before), after.
        split; [done|]. intros r' [->|Hr']%elem_of_cons; [done | by apply Hb].
      * destruct IH as [_ Hall]. split; [done|].
        intros r' [->|Hr']%elem_of_cons; [done | by apply Hall].
Qed.

(** X26: the first rule whose pattern occurs in the target decides; when no
    pattern occurs the decision is to ask. *)
Theorem evaluateRules_first_match rules target :
  match evaluateRules rules target with
  | (d, None) =>
      d = ask ∧ ∀ r, r ∈ rules → ¬ occurs (pattern r) target
  | (d, Some r) =>
      d = decision r ∧ occurs (pattern r) target ∧
      ∃ before after, rules = before ++ r :: after ∧
                      ∀ r', r' ∈ before → ¬ occurs (pattern r') target
  end.
Proof. apply evaluateRules_find. Qed.

(** X27: under the default settings no command is allowed without asking,
    and a command is denied exactly when one of the seven patterns occurs
    in it. *)
Theorem default_command_rules nanoid target :
  let d := fst (evaluateRules (commandRules (defaultWorkspaceSettings nanoid))
                              target) in
  d ≠ allow ∧
  (d = deny ↔
     ∃ p, p ∈ ["rm -rf"; "sudo"; "chmod 777"; "dd "; "mkfs"; "shutdown";
               "reboot"]%string ∧ occurs (js p) target) ∧
  (d ≠ deny → d = ask).
Proof.
  pose proof (evaluateRules_find
                (commandRules (defaultWorkspaceSettings nanoid)) target) as H.
  destruct (evaluateRules _ target) as [d [r|]]; simpl in *.
  - destruct H as (-> & Ho & before & after & Hr & _).
    assert (Hin : r ∈ commandRules (defaultWorkspaceSettings nanoid)).
    { simpl. rewrite Hr. apply elem_of_app. right. by left. }
    simpl in Hin.
    assert (Hd : decision r = deny ∧
                 ∃ p, p ∈ ["rm -rf"; "sudo"; "chmod 777"; "dd "; "mkfs";
                           "shutdown"; "reboot"]%string ∧ pattern r = js p).
    { repeat (apply elem_of_cons in Hin as [->|Hin];
              [split; [done|]; eexists; split; [|reflexivity];
               repeat first [by left | right] |]).
      by apply elem_of_nil in Hin. }
    destruct Hd as (Hd & p & Hp & Hpat). rewrite Hd. split; [done|].
    split; [|done]. split; [intros _|done]. exists p. by rewrite <- Hpat.
  - destruct H as [-> Hall]. split; [done|]. split; [|done].
    split; [done|]. intros (p & Hp & Ho). exfalso.
    repeat (apply elem_of_cons in Hp as [->|Hp];
            [eapply (Hall (rule _ _ deny)); [|exact Ho];
             simpl; repeat first [by left | right] |]).
    by apply elem_of_nil in Hp.
Qed.

(** *** The timeline *)

Lemma handleTransportEvent_timeline e ids now store s :
  ∃ item,
    listTimelineItems s (handleTransportEvent e ids now store) =
      (if bool_decide (s = ev_sessionId e)
       then listTimelineItems s store ++ [item]
       else listTimelineItems s store) ∧
    default 0%Z (sequences (handleTransportEvent e ids now store) !! s) =
      (if bool_decide (s = ev_sessionId e)
       then default 0%Z (sequences store !! s) + 1
       else default 0%Z (sequences store !! s))%Z ∧
    ti_payload item = EventPayload e ∧
    ti_sequence item = (default 0%Z (sequences store !! ev_sessionId e) + 1)%Z ∧
    ti_type item = mapEventToTimelineType (type_string (ev_type e)) (ev_payload e).
Proof.
  eexists. unfold handleTransportEvent, listTimelineItems.
  assert (H : ∀ st', timeline
            (match ev_type e, ev_payload e with
             | approval_request, PApproval a =>
                 createApproval
                   {| sa_request :=
                        {| ap_id := if bool_decide (ap_id a = [])
                                    then js "approval_" ++ snd ids else ap_id a;
                           ap_sessionId := ev_sessionId e;
                           ap_turnId := default [] (ev_turnId e);
                           ap_kind := ap_kind a;
                           ap_title := ap_title a;
                           ap_details := ap_details a;
                           ap_createdAt := ap_createdAt a;
                           ap_codexApprovalId := ap_codexApprovalId a;
                           ap_respond := ap_respond a |};
                      sa_status := pending;
                      sa_resolvedAt := None |} st'
             | _, _ => st'
             end) = timeline st' ∧
          sequences
            (match ev_type e, ev_payload e with
             | approval_request, PApproval a =>
                 createApproval
                   {| sa_request :=
                        {| ap_id := if bool_decide (ap_id a = [])
                                    then js "approval_" ++ snd ids else ap_id a;
                           ap_sessionId := ev_sessionId e;
                           ap_turnId := default [] (ev_turnId e);
                           ap_kind := ap_kind a;
                           ap_title := ap_title a;
                           ap_details := ap_details a;
                           ap_createdAt := ap_createdAt a;
                           ap_codexApprovalId := ap_codexApprovalId a;
                           ap_respond := ap_respond a |};
                      sa_status := pending;
                      sa_resolvedAt := None |} st'
             | _, _ => st'
             end) = sequences st').
  { intros st'. by repeat case_match. }
  destruct (H (addTimelineItem ids.1 now
             {| in_sessionId := ev_sessionId e;
                in_turnId := ev_turnId e;
                in_type := mapEventToTimelineType (type_string (ev_type e))
                                                  (ev_payload e);
                in_payload := EventPayload e;
                in_createdAt := None |} store).1) as [-> ->].
  simpl. case_bool_decide as Hs.
  - subst s. rewrite !lookup_insert_eq. simpl. split_and!; reflexivity.
  - rewrite !lookup_insert_ne by done. split_and!; reflexivity.
Qed.

Lemma store_inv_handleTransportEvent e ids now store :
  store_inv store → store_inv (handleTransportEvent e ids now store).
Proof.
  intros Hinv s. destruct (Hinv s) as [H1 H2].
  destruct (handleTransportEvent_timeline e ids now store s)
    as (item & Hl & Hq & _ & Hseq & _).
  rewrite Hl, Hq. case_bool_decide as Hs; [|done]. subst s.
  rewrite fmap_app, length_app, H1. simpl. rewrite Hseq, H2.
  rewrite Nat.add_1_r, seq_S, fmap_app. simpl.
  split; [do 3 f_equal; lia | lia].
Qed.

Lemma store_inv_empty : store_inv emptyStore.
Proof. intros s. unfold listTimelineItems. simpl. by rewrite !lookup_empty. Qed.

Lemma handleTransportEvents_timeline arrivals : ∀ store s,
  store_inv store →
  let store' := handleTransportEvents arrivals store in
  store_inv store' ∧
  ti_payload <$> listTimelineItems s store' =
    (ti_payload <$> listTimelineItems s store) ++
    (EventPayload <$> events_of s arrivals) ∧
  ti_type <$> listTimelineItems s store' =
    (ti_type <$> listTimelineItems s store) ++
    ((fun e => mapEventToTimelineType (type_string (ev_type e)) (ev_payload e))
       <$> events_of s arrivals).
Proof.
  induction arrivals as [|[[e ids] now] arrivals IH]; intros store s Hinv.
  - simpl. unfold events_of. simpl. by rewrite !app_nil_r.
  - change (handleTransportEvents ((e, ids, now) :: arrivals) store)
      with (handleTransportEvents arrivals (handleTransportEvent e ids now store)).
    destruct (IH (handleTransportEvent e ids now store) s
                (store_inv_handleTransportEvent e ids now store Hinv))
      as (I1 & I2 & I3).
    cbv zeta. split; [exact I1|]. rewrite I2, I3.
    destruct (handleTransportEvent_timeline e ids now store s)
      as (item & Hl & _ & Hp & _ & Hty).
    rewrite Hl. unfold events_of. simpl.
    rewrite (bool_decide_ext (ev_sessionId e = s) (s = ev_sessionId e))
      by (split; congruence).
    case_bool_decide; [|done].
    rewrite !fmap_app. simpl. rewrite Hp, Hty, <- !app_assoc. done.
Qed.

(** X28: the agent manager files every transport event in the timeline of the
    event's session, in arrival order, under the type
    [mapEventToTimelineType] gives it, numbered 1, 2, 3, ... per session. *)
Theorem timeline_per_session arrivals s :
  let items := listTimelineItems s (handleTransportEvents arrivals emptyStore) in
  ti_payload <$> items = EventPayload <$> events_of s arrivals ∧
  ti_type <$> items =
    (fun e => mapEventToTimelineType (type_string (ev_type e)) (ev_payload e))
      <$> events_of s arrivals ∧
  ti_sequence <$> items = Z.of_nat <$> seq 1 (length (events_of s arrivals)).
Proof.
  intros items.
  destruct (handleTransportEvents_timeline arrivals emptyStore s store_inv_empty)
    as (Hinv & Hp & Hty).
  fold items in Hp, Hty.
  assert (Hp' : ti_payload <$> items = EventPayload <$> events_of s arrivals)
    by exact Hp.
  split_and!; [exact Hp' | exact Hty |].
  destruct (Hinv s) as [Hs _]. fold items in Hs. rewrite Hs.
  apply (f_equal length) in Hp'. rewrite !length_fmap in Hp'. by rewrite Hp'.
Qed.

(** *** Approvals, from the peer to the store *)





